(** * The MDBX cursor layer of reth's database crate

    A shallow embedding of [crates/storage/db/src/implementation/mdbx/cursor.rs]:
    the [Cursor] wrapper around the native libmdbx cursor, its read protocol
    ([DbCursorRO]), its duplicate-key protocol ([DbDupCursorRO]), its write
    protocols ([DbCursorRW], [DbDupCursorRW]) and the walker constructors.

    The native cursor is an interface ([NativeCursor]) whose operations thread
    the native state explicitly; [Mdbx] gives one implementation of it as a
    sorted table of byte pairs.

    The module [EthWire] embeds the message types of the [eth] wire protocol
    ([crates/net/eth-wire/src/types]): message ids, request pairs, the
    [eth/66], [eth/67] and [eth/68] message enums and the protocol message
    envelopes, with the RLP primitives they use. *)

From Stdlib Require Import List NArith ZArith Bool Lia String Sorting.Sorted.
Import ListNotations.

(** ** Basic data *)

(** Raw key and value bytes as handed over by libmdbx. *)
Definition bytes := list Byte.byte.

(** Byte-wise (lexicographic) order of encoded keys, the order of the store. *)
Definition byte_cmp (a b : Byte.byte) : comparison :=
  Nat.compare (Byte.to_nat a) (Byte.to_nat b).

Definition bytes_cmp (a b : bytes) : comparison := list_compare byte_cmp a b.

Definition bytes_ltb (a b : bytes) : bool :=
  match bytes_cmp a b with Lt => true | _ => false end.

Definition bytes_leb (a b : bytes) : bool :=
  match bytes_cmp a b with Gt => false | _ => true end.

Definition bytes_eqb (a b : bytes) : bool :=
  match bytes_cmp a b with Eq => true | _ => false end.

(** Rust's [Result]. *)
Inductive Result (A E : Type) : Type :=
| Ok (a : A)
| Err (e : E).
Arguments Ok {A E} a.
Arguments Err {A E} e.

(** A Rust call either returns or panics. *)
Inductive Outcome (A : Type) : Type :=
| Ret (a : A)
| Panic (msg : string).
Arguments Ret {A} a.
Arguments Panic {A} msg.

(** [Option::transpose] on [Result<Option<A>, E>]. *)
Definition transpose {A E} (r : Result (option A) E) : option (Result A E) :=
  match r with
  | Ok None => None
  | Ok (Some a) => Some (Ok a)
  | Err e => Some (Err e)
  end.

(** [Option<Result<A, E>>]'s [map] of a fallible function. *)
Definition map_opt {A B E} (f : A -> Result B E) (o : option A) : option (Result B E) :=
  match o with
  | Some a => Some (f a)
  | None => None
  end.

(** The native error type of [reth_libmdbx], restricted to the codes this
    layer meets, and [Error::to_err_code] (the [into] used by [map_err]). *)
Inductive MDBXError :=
| KeyExist
| NotFound
| NoData
| Corrupted
| KeyMismatch
| Other (code : Z).

Definition to_err_code (e : MDBXError) : Z :=
  match e with
  | KeyExist => -30799
  | NotFound => -30798
  | NoData => 61
  | Corrupted => -30796
  | KeyMismatch => -30418
  | Other c => c
  end.

(** Modelled from the spec: the crate's [Error] type (defined outside
    [cursor.rs]), after its error taxonomy: native read, write and delete
    failures carry the native code, [Decode] is a malformed stored entry and
    [InvalidRange] an unsupported or contradictory range. *)
Inductive Error :=
| Read (code : Z)
| Write (code : Z)
| Delete (code : Z)
| Decode
| InvalidRange.

(** [reth_libmdbx::WriteFlags], the flags this layer passes. *)
Inductive WriteFlags :=
| UPSERT
| NO_OVERWRITE
| APPEND
| APPEND_DUP
| CURRENT
| NO_DUP_DATA.

(** [std::ops::Bound]. *)
Inductive Bound (A : Type) :=
| Included (a : A)
| Excluded (a : A)
| Unbounded.
Arguments Included {A} a.
Arguments Excluded {A} a.
Arguments Unbounded {A}.

(** ** The native cursor interface

    Each primitive of [reth_libmdbx::Cursor] takes the native state and
    returns its result with the new state; absence is [Ok None], a failure
    the native error. *)

Definition NResult (A : Type) := Result A MDBXError.
Definition Pair := (bytes * bytes)%type.

Class NativeCursor (S : Type) := {
  n_first : S -> NResult (option Pair) * S;
  n_last : S -> NResult (option Pair) * S;
  n_next : S -> NResult (option Pair) * S;
  n_prev : S -> NResult (option Pair) * S;
  n_get_current : S -> NResult (option Pair) * S;
  n_set_key : S -> bytes -> NResult (option Pair) * S;
  n_set_range : S -> bytes -> NResult (option Pair) * S;
  n_set : S -> bytes -> NResult (option bytes) * S;
  n_get_both_range : S -> bytes -> bytes -> NResult (option bytes) * S;
  n_next_dup : S -> NResult (option Pair) * S;
  n_next_nodup : S -> NResult (option Pair) * S;
  n_put : S -> bytes -> bytes -> WriteFlags -> NResult unit * S;
  n_del : S -> WriteFlags -> NResult unit * S
}.

(** ** Tables

    A [Table] binds a key and a value type to their codecs; a [DupSort] table
    adds a sub-key.  [key_lt] is the key type's [Ord]. *)

Record Table := {
  Key : Type;
  Value : Type;
  key_encode : Key -> bytes;
  key_decode : bytes -> option Key;
  value_compress : Value -> bytes;
  value_decompress : bytes -> option Value;
  key_lt : Key -> Key -> bool
}.

Record DupSort := {
  dup_table :> Table;
  SubKey : Type;
  subkey_encode : SubKey -> bytes
}.

(** Modelled from the spec: [tables::utils::decoder], [decode_value] and
    [decode_one] (outside [cursor.rs]): decode the key, decompress the value,
    and report malformed bytes as [Decode]. *)
Definition decoder (T : Table) (kv : Pair) : Result (Key T * Value T) Error :=
  match key_decode T (fst kv), value_decompress T (snd kv) with
  | Some k, Some v => Ok (k, v)
  | _, _ => Err Decode
  end.

Definition decode_value (T : Table) (kv : Pair) : Result (Value T) Error :=
  match value_decompress T (snd kv) with
  | Some v => Ok v
  | None => Err Decode
  end.

Definition decode_one (T : Table) (v : bytes) : Result (Value T) Error :=
  match value_decompress T v with
  | Some x => Ok x
  | None => Err Decode
  end.

(** ** The [Cursor] wrapper *)

(** [reth_libmdbx::TransactionKind]: the access mode marker. *)
Inductive TransactionKind := RO | RW.

(** [Cursor<'tx, K, T>]: the native cursor of a transaction of kind [K] over
    table [T].  The table name does not take part in any operation. *)
Record Cursor (K : TransactionKind) (T : Table) (S : Type) := mkCursor {
  inner : S
}.
Arguments mkCursor {K T S} inner.
Arguments inner {K T S} c.

(** [PairResult<T>] and [ValueOnlyResult<T>]. *)
Definition PairResult (T : Table) := Result (option (Key T * Value T)) Error.
Definition ValueOnlyResult (T : Table) := Result (option (Value T)) Error.

(** The [decode!] macro:
    [$v.map_err(|e| Error::Read(e.into()))?.map(decoder::<T>).transpose()]. *)
Definition decode (T : Table) (v : NResult (option Pair)) : PairResult T :=
  match v with
  | Err e => Err (Read (to_err_code e))
  | Ok o =>
      match map_opt (decoder T) o with
      | None => Ok None
      | Some (Ok p) => Ok (Some p)
      | Some (Err e) => Err e
      end
  end.

(** The walkers hold the cursor and the cached first item. *)
Record Walker (K : TransactionKind) (T : Table) (S : Type) := mkWalker {
  walker_cursor : Cursor K T S;
  walker_start : option (Result (Key T * Value T) Error)
}.
Record RangeWalker (K : TransactionKind) (T : Table) (S : Type) := mkRangeWalker {
  range_cursor : Cursor K T S;
  range_start : option (Result (Key T * Value T) Error);
  range_start_bound : Bound (Key T);
  range_end_bound : Bound (Key T)
}.
Record ReverseWalker (K : TransactionKind) (T : Table) (S : Type) := mkReverseWalker {
  reverse_cursor : Cursor K T S;
  reverse_start : option (Result (Key T * Value T) Error)
}.
Record DupWalker (K : TransactionKind) (T : Table) (S : Type) := mkDupWalker {
  dup_cursor : Cursor K T S;
  dup_start : option (Result (Key T * Value T) Error)
}.
Arguments mkWalker {K T S}.
Arguments walker_cursor {K T S}.
Arguments walker_start {K T S}.
Arguments mkRangeWalker {K T S}.
Arguments range_cursor {K T S}.
Arguments range_start {K T S}.
Arguments range_start_bound {K T S}.
Arguments range_end_bound {K T S}.
Arguments mkReverseWalker {K T S}.
Arguments reverse_cursor {K T S}.
Arguments reverse_start {K T S}.
Arguments mkDupWalker {K T S}.
Arguments dup_cursor {K T S}.
Arguments dup_start {K T S}.

Section DbCursorRO.
Context {S : Type} `{NativeCursor S} {K : TransactionKind} {T : Table}.

(** Runs a native read and decodes it ([decode!(self.inner.op())]). *)
Definition read_pair (step : NResult (option Pair) * S) : PairResult T * Cursor K T S :=
  (decode T (fst step), mkCursor (snd step)).

Definition first (c : Cursor K T S) := read_pair (n_first (inner c)).
Definition seek_exact (c : Cursor K T S) (key : Key T) :=
  read_pair (n_set_key (inner c) (key_encode T key)).
Definition seek (c : Cursor K T S) (key : Key T) :=
  read_pair (n_set_range (inner c) (key_encode T key)).
Definition next (c : Cursor K T S) := read_pair (n_next (inner c)).
Definition prev (c : Cursor K T S) := read_pair (n_prev (inner c)).
Definition last (c : Cursor K T S) := read_pair (n_last (inner c)).
Definition current (c : Cursor K T S) := read_pair (n_get_current (inner c)).

(** [walk]: with a start key the native [set_range] error is returned by
    [?]; without one, [self.first().transpose()] is cached. *)
Definition walk (c : Cursor K T S) (start_key : option (Key T))
  : Result (Walker K T S) Error * Cursor K T S :=
  match start_key with
  | Some start_key =>
      let (r, s') := n_set_range (inner c) (key_encode T start_key) in
      match r with
      | Err e => (Err (Read (to_err_code e)), mkCursor s')
      | Ok o => (Ok (mkWalker (mkCursor s') (map_opt (decoder T) o)), mkCursor s')
      end
  | None =>
      let (r, c') := first c in
      (Ok (mkWalker c' (transpose r)), c')
  end.

Definition walk_range_unreachable : string :=
  "Rust doesn't allow for Bound::Excluded in starting bounds".

(** [walk_range]: the start bound selects the native positioning; an
    [Included] start whose end bound key is smaller returns
    [Error::Read(2)]; an [Excluded] start reaches [unreachable!]. *)
Definition walk_range (c : Cursor K T S) (range : Bound (Key T) * Bound (Key T))
  : Outcome (Result (RangeWalker K T S) Error * Cursor K T S) :=
  let finish (step : NResult (option Pair) * S) :=
    let c' := mkCursor (snd step) in
    match fst step with
    | Err e => (Err (Read (to_err_code e)), c')
    | Ok o => (Ok (mkRangeWalker c' (map_opt (decoder T) o) (fst range) (snd range)), c')
    end in
  match fst range with
  | Included key =>
      if match snd range with
         | Included end_key | Excluded end_key => key_lt T end_key key
         | Unbounded => false
         end
      then Ret (Err (Read 2), c)
      else Ret (finish (n_set_range (inner c) (key_encode T key)))
  | Excluded _ => Panic walk_range_unreachable
  | Unbounded => Ret (finish (n_first (inner c)))
  end.

(** [walk_back]: [decode!] returns a native error through [?]. *)
Definition walk_back (c : Cursor K T S) (start_key : option (Key T))
  : Result (ReverseWalker K T S) Error * Cursor K T S :=
  match start_key with
  | Some start_key =>
      let (r, s') := n_set_range (inner c) (key_encode T start_key) in
      match r with
      | Err e => (Err (Read (to_err_code e)), mkCursor s')
      | Ok _ => (Ok (mkReverseWalker (mkCursor s') (transpose (decode T r))), mkCursor s')
      end
  | None =>
      let (r, c') := last c in
      (Ok (mkReverseWalker c' (transpose r)), c')
  end.

End DbCursorRO.

Section DbDupCursorRO.
Context {S : Type} `{NativeCursor S} {K : TransactionKind} {T : DupSort}.

Definition next_dup (c : Cursor K T S) : PairResult T * Cursor K T S := read_pair (n_next_dup (inner c)).
Definition next_no_dup (c : Cursor K T S) : PairResult T * Cursor K T S :=
  read_pair (n_next_nodup (inner c)).

Definition next_dup_val (c : Cursor K T S) : ValueOnlyResult T * Cursor K T S :=
  let (r, s') := n_next_dup (inner c) in
  match r with
  | Err e => (Err (Read (to_err_code e)), mkCursor s')
  | Ok o =>
      (match map_opt (decode_value T) o with
       | None => Ok None
       | Some (Ok v) => Ok (Some v)
       | Some (Err e) => Err e
       end, mkCursor s')
  end.

Definition seek_by_key_subkey (c : Cursor K T S) (key : Key T) (subkey : SubKey T)
  : ValueOnlyResult T * Cursor K T S :=
  let (r, s') := n_get_both_range (inner c) (key_encode T key) (subkey_encode T subkey) in
  match r with
  | Err e => (Err (Read (to_err_code e)), mkCursor s')
  | Ok o =>
      (match map_opt (decode_one T) o with
       | None => Ok None
       | Some (Ok v) => Ok (Some v)
       | Some (Err e) => Err e
       end, mkCursor s')
  end.

(** The cached start item of a value lookup under the re-encoded [key]. *)
Definition dup_start_of (key : bytes) (step : NResult (option bytes) * S)
  : Result (option (Result (Key T * Value T) Error)) Error * Cursor K T S :=
  match fst step with
  | Err e => (Err (Read (to_err_code e)), mkCursor (snd step))
  | Ok o => (Ok (map_opt (fun val => decoder T (key, val)) o), mkCursor (snd step))
  end.

Definition walk_dup (c : Cursor K T S) (key : option (Key T)) (subkey : option (SubKey T))
  : Result (DupWalker K T S) Error * Cursor K T S :=
  let start :=
    match key, subkey with
    | Some key, Some subkey =>
        let key := key_encode T key in
        dup_start_of key (n_get_both_range (inner c) key (subkey_encode T subkey))
    | Some key, None =>
        let key := key_encode T key in
        dup_start_of key (n_set (inner c) key)
    | None, Some subkey =>
        let (r, c1) := first c in
        match r with
        | Err e => (Err e, c1)
        | Ok (Some (key, _)) =>
            let key := key_encode T key in
            dup_start_of key (n_get_both_range (inner c1) key (subkey_encode T subkey))
        | Ok None =>
            let err_code := to_err_code NotFound in
            (Ok (Some (Err (Read err_code))), c1)
        end
    | None, None =>
        let (r, c1) := first c in
        (Ok (transpose r), c1)
    end in
  match start with
  | (Err e, c') => (Err e, c')
  | (Ok st, c') => (Ok (mkDupWalker c' st), c')
  end.

End DbDupCursorRO.

(** Modelled from the spec: the iterator of [DupWalker] (in [crate::cursor],
    outside [cursor.rs]): the cached start item is produced first, then
    [next_dup] gives the following items. *)
Definition dup_walker_next {S} `{NativeCursor S} {K} {T : DupSort} (w : DupWalker K T S)
  : option (Result (Key T * Value T) Error) * DupWalker K T S :=
  match dup_start w with
  | Some st => (Some st, mkDupWalker (dup_cursor w) None)
  | None =>
      let (r, c') := next_dup (dup_cursor w) in
      (transpose r, mkDupWalker c' None)
  end.

(** ** The write protocols, implemented for [Cursor<'tx, RW, T>] only *)

Section DbCursorRW.
Context {S : Type} `{NativeCursor S} {T : Table}.

Definition put_with (c : Cursor RW T S) (key : Key T) (value : Value T) (flags : WriteFlags)
  : Result unit Error * Cursor RW T S :=
  let (r, s') := n_put (inner c) (key_encode T key) (value_compress T value) flags in
  match r with
  | Ok u => (Ok u, mkCursor s')
  | Err e => (Err (Write (to_err_code e)), mkCursor s')
  end.

Definition upsert (c : Cursor RW T S) (key : Key T) (value : Value T) :=
  put_with c key value UPSERT.
Definition insert (c : Cursor RW T S) (key : Key T) (value : Value T) :=
  put_with c key value NO_OVERWRITE.
Definition append (c : Cursor RW T S) (key : Key T) (value : Value T) :=
  put_with c key value APPEND.

Definition del_with (c : Cursor RW T S) (flags : WriteFlags) : Result unit Error * Cursor RW T S :=
  let (r, s') := n_del (inner c) flags in
  match r with
  | Ok u => (Ok u, mkCursor s')
  | Err e => (Err (Delete (to_err_code e)), mkCursor s')
  end.

Definition delete_current (c : Cursor RW T S) := del_with c CURRENT.

End DbCursorRW.

Section DbDupCursorRW.
Context {S : Type} `{NativeCursor S} {T : DupSort}.

Definition delete_current_duplicates (c : Cursor RW T S) := del_with c NO_DUP_DATA.
Definition append_dup (c : Cursor RW T S) (key : Key T) (value : Value T) :=
  put_with c key value APPEND_DUP.

End DbDupCursorRW.

(** ** A native cursor over a sorted table *)

Module Mdbx.

(** Modelled from the spec: the native libmdbx cursor (an external
    collaborator).  The table is the list of its entries in store order
    (by key, then by value for a DUPSORT table); the cursor is an index
    into it, or unpositioned. *)
Record MdbxState := mkState {
  db : list Pair;
  dupsort : bool;
  pos : option nat
}.

Definition with_pos (st : MdbxState) (p : option nat) : MdbxState :=
  mkState (db st) (dupsort st) p.

Definition with_db (st : MdbxState) (l : list Pair) (p : option nat) : MdbxState :=
  mkState l (dupsort st) p.

(** Order of the entries of a DUPSORT table: by key, then by value. *)
Definition entry_ltb (a b : Pair) : bool :=
  match bytes_cmp (fst a) (fst b) with
  | Lt => true
  | Eq => bytes_ltb (snd a) (snd b)
  | Gt => false
  end.

Definition pair_eqb (a b : Pair) : bool := bytes_eqb (fst a) (fst b) && bytes_eqb (snd a) (snd b).

Fixpoint insert_sorted (e : Pair) (l : list Pair) : list Pair :=
  match l with
  | [] => [e]
  | x :: l' => if entry_ltb e x then e :: l else x :: insert_sorted e l'
  end.

Fixpoint find_index (p : Pair -> bool) (l : list Pair) : option nat :=
  match l with
  | [] => None
  | x :: l' => if p x then Some 0 else option_map S (find_index p l')
  end.

Fixpoint remove_at (i : nat) (l : list Pair) : list Pair :=
  match l, i with
  | [], _ => []
  | _ :: l', 0 => l'
  | x :: l', S i' => x :: remove_at i' l'
  end.

Definition key_present (k : bytes) (l : list Pair) : bool :=
  existsb (fun e => bytes_eqb (fst e) k) l.

(** Positions the cursor at index [i] and returns the entry there. *)
Definition at_pos (st : MdbxState) (i : nat) : NResult (option Pair) * MdbxState :=
  match nth_error (db st) i with
  | Some e => (Ok (Some e), with_pos st (Some i))
  | None => (Ok None, with_pos st None)
  end.

(** Positions at the first entry satisfying [p]; unpositioned if none. *)
Definition seek_first (st : MdbxState) (p : Pair -> bool) : NResult (option Pair) * MdbxState :=
  match find_index p (db st) with
  | Some i => at_pos st i
  | None => (Ok None, with_pos st None)
  end.

Definition value_only (step : NResult (option Pair) * MdbxState) : NResult (option bytes) * MdbxState :=
  match fst step with
  | Ok o => (Ok (option_map snd o), snd step)
  | Err e => (Err e, snd step)
  end.

Definition first (st : MdbxState) := seek_first st (fun _ => true).

Definition last (st : MdbxState) : NResult (option Pair) * MdbxState :=
  match db st with
  | [] => (Ok None, with_pos st None)
  | _ => at_pos st (pred (List.length (db st)))
  end.

Definition next (st : MdbxState) : NResult (option Pair) * MdbxState :=
  match pos st with
  | None => first st
  | Some i =>
      match nth_error (db st) (S i) with
      | Some e => (Ok (Some e), with_pos st (Some (S i)))
      | None => (Ok None, st)
      end
  end.

Definition prev (st : MdbxState) : NResult (option Pair) * MdbxState :=
  match pos st with
  | None => last st
  | Some 0 => (Ok None, st)
  | Some (S i) => at_pos st i
  end.

Definition get_current (st : MdbxState) : NResult (option Pair) * MdbxState :=
  match pos st with
  | Some i => (Ok (nth_error (db st) i), st)
  | None => (Ok None, st)
  end.

Definition set_key (st : MdbxState) (k : bytes) :=
  seek_first st (fun e => bytes_eqb (fst e) k).

(** [MDBX_SET_RANGE]: the first entry whose key is at least [k]. *)
Definition set_range (st : MdbxState) (k : bytes) :=
  seek_first st (fun e => bytes_leb k (fst e)).

Definition set (st : MdbxState) (k : bytes) := value_only (set_key st k).

(** [MDBX_GET_BOTH_RANGE]: the first entry under key [k] whose value is at
    least [d] in byte order. *)
Definition get_both_range (st : MdbxState) (k d : bytes) :=
  value_only (seek_first st (fun e => bytes_eqb (fst e) k && bytes_leb d (snd e))).

Definition next_dup (st : MdbxState) : NResult (option Pair) * MdbxState :=
  match pos st with
  | None => first st
  | Some i =>
      match nth_error (db st) i, nth_error (db st) (S i) with
      | Some e, Some e' =>
          if bytes_eqb (fst e) (fst e') then (Ok (Some e'), with_pos st (Some (S i)))
          else (Ok None, st)
      | _, _ => (Ok None, st)
      end
  end.

Definition next_nodup (st : MdbxState) : NResult (option Pair) * MdbxState :=
  match pos st with
  | None => first st
  | Some i =>
      match nth_error (db st) i with
      | Some e =>
          match find_index (fun e' => negb (bytes_eqb (fst e') (fst e))) (skipn (S i) (db st)) with
          | Some j => at_pos st (S i + j)
          | None => (Ok None, st)
          end
      | None => (Ok None, st)
      end
  end.

(** Stores [e] and positions the cursor on it. *)
Definition store (st : MdbxState) (l : list Pair) (e : Pair) : NResult unit * MdbxState :=
  (Ok tt, with_db st l (find_index (pair_eqb e) l)).

(** [UPSERT] adds the pair; on a plain table it replaces the value of a
    present key, on a DUPSORT table it adds one more value under the key. *)
Definition upsert (st : MdbxState) (k v : bytes) : NResult unit * MdbxState :=
  if dupsort st then
    if existsb (pair_eqb (k, v)) (db st) then store st (db st) (k, v)
    else store st (insert_sorted (k, v) (db st)) (k, v)
  else if key_present k (db st) then
    store st (map (fun e => if bytes_eqb (fst e) k then (k, v) else e) (db st)) (k, v)
  else store st (insert_sorted (k, v) (db st)) (k, v).

(** The entry [MDBX_LAST] finds, against which [APPEND] compares. *)
Fixpoint last_entry (l : list Pair) : option Pair :=
  match l with
  | [] => None
  | [e] => Some e
  | _ :: l' => last_entry l'
  end.

Definition put (st : MdbxState) (k v : bytes) (flags : WriteFlags) : NResult unit * MdbxState :=
  match flags with
  | UPSERT => upsert st k v
  | NO_OVERWRITE => if key_present k (db st) then (Err KeyExist, st) else upsert st k v
  | APPEND =>
      match last_entry (db st) with
      | Some (lk, _) =>
          if bytes_ltb lk k then store st (db st ++ [(k, v)]) (k, v) else (Err KeyMismatch, st)
      | None => store st [(k, v)] (k, v)
      end
  | APPEND_DUP =>
      match last_entry (db st) with
      | Some le =>
          if entry_ltb le (k, v) then store st (db st ++ [(k, v)]) (k, v) else (Err KeyMismatch, st)
      | None => store st [(k, v)] (k, v)
      end
  | CURRENT | NO_DUP_DATA => (Err (Other 22), st)
  end.

Definition del (st : MdbxState) (flags : WriteFlags) : NResult unit * MdbxState :=
  match pos st with
  | None => (Err NoData, st)
  | Some i =>
      match nth_error (db st) i with
      | None => (Err NoData, st)
      | Some e =>
          match flags with
          | CURRENT => (Ok tt, with_db st (remove_at i (db st)) (Some i))
          | NO_DUP_DATA =>
              (Ok tt, with_db st (filter (fun e' => negb (bytes_eqb (fst e') (fst e))) (db st)) (Some i))
          | _ => (Err (Other 22), st)
          end
      end
  end.

#[global] Instance native : NativeCursor MdbxState := {
  n_first := first;
  n_last := last;
  n_next := next;
  n_prev := prev;
  n_get_current := get_current;
  n_set_key := set_key;
  n_set_range := set_range;
  n_set := set;
  n_get_both_range := get_both_range;
  n_next_dup := next_dup;
  n_next_nodup := next_nodup;
  n_put := put;
  n_del := del
}.

End Mdbx.

(** A native cursor whose every call reports the same engine failure, as a
    libmdbx cursor over a damaged database does. *)
Module Faulty.

Record FaultyState := mkFaulty { fault : MDBXError }.

Definition fail {A} (st : FaultyState) : NResult A * FaultyState := (Err (fault st), st).

#[global] Instance native : NativeCursor FaultyState := {
  n_first := fail;
  n_last := fail;
  n_next := fail;
  n_prev := fail;
  n_get_current := fail;
  n_set_key := fun st _ => fail st;
  n_set_range := fun st _ => fail st;
  n_set := fun st _ => fail st;
  n_get_both_range := fun st _ _ => fail st;
  n_next_dup := fail;
  n_next_nodup := fail;
  n_put := fun st _ _ _ => fail st;
  n_del := fun st _ => fail st
}.

End Faulty.

(** ** Concrete tables *)

Import Corelib.Init.Byte(x00, x01, x0a, x02, x03, x04, x05, x06, x07, x08, x09, x10, x30, x50, x70, x90, xaa, xbb, xcc,
  x0d, x0e, x0f, x39, x82, xc0, xc1, xc5).

(** A table keyed by a one-byte integer holding one-byte values. *)
Definition u8_decode (b : bytes) : option Byte.byte :=
  match b with [x] => Some x | _ => None end.

Definition U8Table : Table := {|
  Key := Byte.byte;
  Value := Byte.byte;
  key_encode := fun k => [k];
  key_decode := u8_decode;
  value_compress := fun v => [v];
  value_decompress := u8_decode;
  key_lt := fun a b => Nat.ltb (Byte.to_nat a) (Byte.to_nat b)
|}.

(** A DUPSORT table keyed by one byte whose values are a one-byte sub-key
    followed by a one-byte payload. *)
Definition entry_decode (b : bytes) : option (Byte.byte * Byte.byte) :=
  match b with [s; p] => Some (s, p) | _ => None end.

Definition U8EntryTable : Table := {|
  Key := Byte.byte;
  Value := (Byte.byte * Byte.byte)%type;
  key_encode := fun k => [k];
  key_decode := u8_decode;
  value_compress := fun v => [fst v; snd v];
  value_decompress := entry_decode;
  key_lt := fun a b => Nat.ltb (Byte.to_nat a) (Byte.to_nat b)
|}.

Definition U8DupTable : DupSort := {|
  dup_table := U8EntryTable;
  SubKey := Byte.byte;
  subkey_encode := fun s => [s]
|}.

Definition mdbx_cursor (K : TransactionKind) (T : Table) (l : list Pair) (dup : bool)
  : Cursor K T Mdbx.MdbxState :=
  mkCursor (Mdbx.mkState l dup None).

Definition keys_1_to_9 : list Pair :=
  [([x01], [x10]); ([x03], [x30]); ([x05], [x50]); ([x07], [x70]); ([x09], [x90])].

(** ** Properties of tables *)

(** The table is kept in key order (the order libmdbx maintains). *)
Definition keys_sorted (l : list Pair) : Prop :=
  Sorted (fun a b => bytes_leb (fst a) (fst b) = true) l.

(** The first value stored under key [k] whose sub-key (its leading bytes,
    as many as the encoded sub-key [sk] has) is at least [sk], with its
    index in the table. *)
Fixpoint first_dup_at_or_after (l : list Pair) (k sk : bytes) : option (nat * bytes) :=
  match l with
  | [] => None
  | e :: l' =>
      if bytes_eqb (fst e) k && bytes_leb sk (firstn (List.length sk) (snd e))
      then Some (0, snd e)
      else option_map (fun r => (S (fst r), snd r)) (first_dup_at_or_after l' k sk)
  end.


(** ** The [eth] wire message types *)

Module EthWire.

(** [reth_rlp::DecodeError], the variants this code meets. *)
Inductive DecodeError :=
| Overflow
| LeadingZero
| InputTooShort
| NonCanonicalSingleByte
| NonCanonicalSize
| UnexpectedList
| Custom (msg : string).

(** A decoder takes [buf : &mut &[u8]]: it returns the decoded value with the
    part of the buffer it did not consume. *)
Definition Decoded (A : Type) := Result (A * bytes) DecodeError.

Definition bind {A B} (r : Decoded A) (f : A -> bytes -> Decoded B) : Decoded B :=
  match r with
  | Ok (a, rest) => f a rest
  | Err e => Err e
  end.

Notation "'let?' ( x , buf ) := r 'in' body" := (bind r (fun x buf => body))
  (at level 200, x name, buf name, r at level 100, body at level 200).

(** [reth_rlp::Encodable]: [encode] appends to the output buffer the bytes
    given here; [reth_rlp::Decodable]. *)
Class Encodable (A : Type) := {
  rlp_encode : A -> bytes;
  rlp_length : A -> nat
}.

Class Decodable (A : Type) := {
  rlp_decode : bytes -> Decoded A
}.

(** *** [EthMessageID] ([types/message.rs]) *)

Module EthMessageID.

Inductive t :=
| Status
| NewBlockHashes
| Transactions
| GetBlockHeaders
| BlockHeaders
| GetBlockBodies
| BlockBodies
| NewBlock
| NewPooledTransactionHashes
| GetPooledTransactions
| PooledTransactions
| GetNodeData
| NodeData
| GetReceipts
| Receipts.

(** The [#[repr(u8)]] discriminants. *)
Definition to_u8 (id : t) : Byte.byte :=
  match id with
  | Status => x00
  | NewBlockHashes => x01
  | Transactions => x02
  | GetBlockHeaders => x03
  | BlockHeaders => x04
  | GetBlockBodies => x05
  | BlockBodies => x06
  | NewBlock => x07
  | NewPooledTransactionHashes => x08
  | GetPooledTransactions => x09
  | PooledTransactions => x0a
  | GetNodeData => x0d
  | NodeData => x0e
  | GetReceipts => x0f
  | Receipts => x10
  end.

(** [Encodable for EthMessageID]: the id byte ([put_u8]); length 1. *)
Definition encode (id : t) : bytes := [to_u8 id].
Definition length (id : t) : nat := 1.

(** [Decodable for EthMessageID]: the first byte selects the id and is
    consumed; an empty buffer or an unknown byte is an error. *)
Definition decode (buf : bytes) : Decoded t :=
  match buf with
  | [] => Err InputTooShort
  | b :: rest =>
      match b with
      | x00 => Ok (Status, rest)
      | x01 => Ok (NewBlockHashes, rest)
      | x02 => Ok (Transactions, rest)
      | x03 => Ok (GetBlockHeaders, rest)
      | x04 => Ok (BlockHeaders, rest)
      | x05 => Ok (GetBlockBodies, rest)
      | x06 => Ok (BlockBodies, rest)
      | x07 => Ok (NewBlock, rest)
      | x08 => Ok (NewPooledTransactionHashes, rest)
      | x09 => Ok (GetPooledTransactions, rest)
      | x0a => Ok (PooledTransactions, rest)
      | x0d => Ok (GetNodeData, rest)
      | x0e => Ok (NodeData, rest)
      | x0f => Ok (GetReceipts, rest)
      | x10 => Ok (Receipts, rest)
      | _ => Err (Custom "Invalid message ID"%string)
      end
  end.

#[global] Instance encodable : Encodable t := { rlp_encode := encode; rlp_length := length }.
#[global] Instance decodable : Decodable t := { rlp_decode := decode }.

(** [TryFrom<usize> for EthMessageID]. *)
Definition try_from (value : nat) : Result t string :=
  match value with
  | 0 => Ok Status
  | 1 => Ok NewBlockHashes
  | 2 => Ok Transactions
  | 3 => Ok GetBlockHeaders
  | 4 => Ok BlockHeaders
  | 5 => Ok GetBlockBodies
  | 6 => Ok BlockBodies
  | 7 => Ok NewBlock
  | 8 => Ok NewPooledTransactionHashes
  | 9 => Ok GetPooledTransactions
  | 10 => Ok PooledTransactions
  | 13 => Ok GetNodeData
  | 14 => Ok NodeData
  | 15 => Ok GetReceipts
  | 16 => Ok Receipts
  | _ => Err "Invalid message ID"%string
  end.

End EthMessageID.

(** *** The RLP primitives [RequestPair] uses

    Modelled from the [reth_rlp] crate (outside [src/]): [Header], the
    integer codec of [u64] and [length_of_length], on a 64-bit target. *)

Module Rlp.

Definition EMPTY_STRING_CODE : N := 128.
Definition EMPTY_LIST_CODE : N := 192.

(** [n as u8]. *)
Definition u8 (n : N) : Byte.byte :=
  match Byte.of_N (n mod 256) with Some b => b | None => x00 end.

(** [to_be_bytes] of a [w]-byte integer. *)
Fixpoint to_be_bytes (w : nat) (n : N) : bytes :=
  match w with
  | O => []
  | S w' => to_be_bytes w' (n / 256) ++ [u8 n]
  end.

(** [zeroless_view]: the bytes after the leading zero bytes. *)
Fixpoint zeroless_view (v : bytes) : bytes :=
  match v with
  | x00 :: v' => zeroless_view v'
  | _ => v
  end.

(** [from_be_bytes]. *)
Definition from_be_bytes (v : bytes) : N :=
  fold_left (fun acc b => (acc * 256 + Byte.to_N b)%N) v 0%N.

(** [static_left_pad::<LEN>]: [None] on a too long input or a leading zero. *)
Definition static_left_pad (LEN : nat) (data : bytes) : option bytes :=
  if Nat.ltb LEN (List.length data) then None
  else
    match data with
    | [] => Some (repeat x00 LEN)
    | x00 :: _ => None
    | _ => Some (repeat x00 (LEN - List.length data) ++ data)
    end.

(** [usize::leading_zeros] / [u64::leading_zeros]. *)
Definition leading_zeros (n : N) : nat := 64 - N.size_nat n.

(** [Header]; its field [list] is [is_list] here. *)
Record Header := mkHeader {
  is_list : bool;
  payload_length : N
}.

Definition header_encode (h : Header) : bytes :=
  if (payload_length h <? 56)%N then
    let code := if is_list h then EMPTY_LIST_CODE else EMPTY_STRING_CODE in
    [u8 (code + payload_length h)]
  else
    let len_be := zeroless_view (to_be_bytes 8 (payload_length h)) in
    let code := if is_list h then 247%N else 183%N in
    u8 (code + N.of_nat (List.length len_be)) :: len_be.

Definition length_of_length (payload_length : N) : nat :=
  if (payload_length <? 56)%N then 1 else 1 + 8 - leading_zeros payload_length / 8.

(** The long form of [Header::decode], after the prefix byte. *)
Definition long_header (list : bool) (len_of_len : nat) (buf : bytes) : Decoded Header :=
  if Nat.ltb (List.length buf) len_of_len then Err InputTooShort
  else
    match static_left_pad 8 (firstn len_of_len buf) with
    | None => Err LeadingZero
    | Some be =>
        let payload_length := from_be_bytes be in
        if (payload_length <? 56)%N then Err NonCanonicalSize
        else Ok (mkHeader list payload_length, skipn len_of_len buf)
    end.

Definition header_decode (buf : bytes) : Decoded Header :=
  match buf with
  | [] => Err InputTooShort
  | b :: rest =>
      let b := Byte.to_N b in
      let h :=
        if (b <? 128)%N then Ok (mkHeader false 1, buf)
        else if (b <? 184)%N then
          let h := mkHeader false (b - 128) in
          if (payload_length h =? 1)%N then
            match rest with
            | [] => Err InputTooShort
            | b1 :: _ =>
                if (Byte.to_N b1 <? 128)%N then Err NonCanonicalSingleByte else Ok (h, rest)
            end
          else Ok (h, rest)
        else if (b <? 192)%N then long_header false (N.to_nat (b - 183)) rest
        else if (b <? 248)%N then Ok (mkHeader true (b - 192), rest)
        else long_header true (N.to_nat (b - 247)) rest in
      match h with
      | Err e => Err e
      | Ok (h, buf) =>
          if (N.of_nat (List.length buf) <? payload_length h)%N then Err InputTooShort
          else Ok (h, buf)
      end
  end.

(** [Encodable for u64]. *)
Definition u64_length (v : N) : nat :=
  if (v <? 128)%N then 1 else 1 + 8 - leading_zeros v / 8.

Definition u64_encode (v : N) : bytes :=
  if (v =? 0)%N then [u8 EMPTY_STRING_CODE]
  else if (v <? EMPTY_STRING_CODE)%N then [u8 v]
  else
    let be := zeroless_view (to_be_bytes 8 v) in
    u8 (EMPTY_STRING_CODE + N.of_nat (List.length be)) :: be.

(** [Decodable for u64]. *)
Definition u64_decode (buf : bytes) : Decoded N :=
  let? (h, buf) := header_decode buf in
  if is_list h then Err UnexpectedList
  else if (8 <? payload_length h)%N then Err Overflow
  else if (N.of_nat (List.length buf) <? payload_length h)%N then Err InputTooShort
  else
    match static_left_pad 8 (firstn (N.to_nat (payload_length h)) buf) with
    | None => Err LeadingZero
    | Some be => Ok (from_be_bytes be, skipn (N.to_nat (payload_length h)) buf)
    end.

#[global] Instance u64_encodable : Encodable N := { rlp_encode := u64_encode; rlp_length := u64_length }.
#[global] Instance u64_decodable : Decodable N := { rlp_decode := u64_decode }.

(** [Encodable for u8] (the integer codec) and for [Vec<T>] (an RLP list of
    its elements). *)
#[global] Instance u8_encodable : Encodable Byte.byte := {
  rlp_encode := fun v => u64_encode (Byte.to_N v);
  rlp_length := fun v => u64_length (Byte.to_N v)
}.

Definition vec_payload_length {A} `{Encodable A} (v : list A) : nat :=
  fold_right (fun x acc => rlp_length x + acc) 0 v.

#[global] Instance vec_encodable {A} `{Encodable A} : Encodable (list A) := {
  rlp_encode := fun v =>
    header_encode (mkHeader true (N.of_nat (vec_payload_length v))) ++ flat_map rlp_encode v;
  rlp_length := fun v =>
    vec_payload_length v + length_of_length (N.of_nat (vec_payload_length v))
}.

End Rlp.

(** *** [RequestPair<T>] ([types/message.rs]) *)

Module RequestPair.

Record t (T : Type) := mk {
  request_id : N;
  message : T
}.
Arguments mk {T}.
Arguments request_id {T}.
Arguments message {T}.

Section Codec.
Context {T : Type}.

Definition encode `{Encodable T} (self : t T) : bytes :=
  let header := Rlp.mkHeader true
    (N.of_nat (Rlp.u64_length (request_id self) + rlp_length (message self))) in
  Rlp.header_encode header ++ Rlp.u64_encode (request_id self) ++ rlp_encode (message self).

Definition length `{Encodable T} (self : t T) : nat :=
  let length := 0 in
  let length := length + Rlp.u64_length (request_id self) in
  let length := length + rlp_length (message self) in
  let length := length + Rlp.length_of_length (N.of_nat length) in
  length.

(** The header is read and dropped: its kind and its length are not checked. *)
Definition decode `{Decodable T} (buf : bytes) : Decoded (t T) :=
  let? (_header, buf) := Rlp.header_decode buf in
  let? (request_id, buf) := Rlp.u64_decode buf in
  let? (message, buf) := rlp_decode buf in
  Ok (mk request_id message, buf).

End Codec.

#[global] Instance encodable {T} `{Encodable T} : Encodable (t T) :=
  { rlp_encode := encode; rlp_length := length }.
#[global] Instance decodable {T} `{Decodable T} : Decodable (t T) :=
  { rlp_decode := decode }.

End RequestPair.

(** *** The [EthMessage] trait and [ProtocolMessage<T>] ([types/message.rs]) *)

Class EthMessage (M : Type) `{Encodable M} := {
  message_id : M -> EthMessageID.t;
  message_decode : EthMessageID.t -> bytes -> Decoded M
}.

Definition invalid_message_id : string := "invalid message id".

Module ProtocolMessage.

Record t (M : Type) := mk {
  message_type : EthMessageID.t;
  message : M
}.
Arguments mk {M}.
Arguments message_type {M}.
Arguments message {M}.

Section Impl.
Context {M : Type} `{EthMessage M}.

Definition decode (buf : bytes) : Decoded (t M) :=
  let? (message_type, buf) := EthMessageID.decode buf in
  let? (message, buf) := message_decode message_type buf in
  Ok (mk message_type message, buf).

Definition encode (self : t M) : bytes :=
  EthMessageID.encode (message_type self) ++ rlp_encode (message self).

Definition length (self : t M) : nat :=
  EthMessageID.length (message_type self) + rlp_length (message self).

(** [From<T> for ProtocolMessage<T>]. *)
Definition from (message : M) : t M := mk (message_id message) message.

End Impl.

End ProtocolMessage.

(** *** [EthStatusMessage] *)

Module EthStatusMessage.
Section Impl.
Context {StatusT : Type} `{Encodable StatusT} `{Decodable StatusT}.

Inductive t := Status (status : StatusT).

Definition message_id (self : t) : EthMessageID.t :=
  match self with Status _ => EthMessageID.Status end.

Definition decode (message_id : EthMessageID.t) (buf : bytes) : Decoded t :=
  match message_id with
  | EthMessageID.Status =>
      let? (status, buf) := rlp_decode buf in Ok (Status status, buf)
  | _ => Err (Custom invalid_message_id)
  end.

Definition encode (self : t) : bytes := match self with Status status => rlp_encode status end.
Definition length (self : t) : nat := match self with Status status => rlp_length status end.

End Impl.
Arguments t StatusT : clear implicits.

#[global] Instance encodable {StatusT} `{Encodable StatusT} : Encodable (t StatusT) :=
  { rlp_encode := encode; rlp_length := length }.
#[global] Instance eth_message {StatusT} `{Encodable StatusT} `{Decodable StatusT} : EthMessage (t StatusT) :=
  { message_id := message_id; message_decode := decode }.

End EthStatusMessage.

(** *** [EthBroadcastMessage] and [ProtocolBroadcastMessage] *)

Module EthBroadcastMessage.
Section Impl.
Context {NewBlockT TransactionsT : Type} `{Encodable NewBlockT} `{Encodable TransactionsT}.

Inductive t :=
| NewBlock (new_block : NewBlockT)
| Transactions (transactions : TransactionsT).

Definition message_id (self : t) : EthMessageID.t :=
  match self with
  | NewBlock _ => EthMessageID.NewBlock
  | Transactions _ => EthMessageID.Transactions
  end.

Definition encode (self : t) : bytes :=
  match self with
  | NewBlock new_block => rlp_encode new_block
  | Transactions transactions => rlp_encode transactions
  end.

Definition length (self : t) : nat :=
  match self with
  | NewBlock new_block => rlp_length new_block
  | Transactions transactions => rlp_length transactions
  end.

End Impl.
Arguments t NewBlockT TransactionsT : clear implicits.
End EthBroadcastMessage.

Module ProtocolBroadcastMessage.
Section Impl.
Context {NewBlockT TransactionsT : Type} `{Encodable NewBlockT} `{Encodable TransactionsT}.

Record t := mk {
  message_type : EthMessageID.t;
  message : EthBroadcastMessage.t NewBlockT TransactionsT
}.

Definition encode (self : t) : bytes :=
  EthMessageID.encode (message_type self) ++ EthBroadcastMessage.encode (message self).

Definition length (self : t) : nat :=
  EthMessageID.length (message_type self) + EthBroadcastMessage.length (message self).

Definition from (message : EthBroadcastMessage.t NewBlockT TransactionsT) : t :=
  mk (EthBroadcastMessage.message_id message) message.

End Impl.
Arguments t NewBlockT TransactionsT : clear implicits.
End ProtocolBroadcastMessage.
(** *** [Eth66Message] ([types/eth66message.rs]) *)

Module Eth66Message.
Section Impl.
Context {NewBlockHashesT NewBlockT TransactionsT NewPooledTransactionHashesT GetBlockHeadersT BlockHeadersT GetBlockBodiesT BlockBodiesT GetPooledTransactionsT PooledTransactionsT GetNodeDataT NodeDataT GetReceiptsT ReceiptsT : Type}.
Context `{Encodable NewBlockHashesT} `{Decodable NewBlockHashesT}.
Context `{Encodable NewBlockT} `{Decodable NewBlockT}.
Context `{Encodable TransactionsT} `{Decodable TransactionsT}.
Context `{Encodable NewPooledTransactionHashesT} `{Decodable NewPooledTransactionHashesT}.
Context `{Encodable GetBlockHeadersT} `{Decodable GetBlockHeadersT}.
Context `{Encodable BlockHeadersT} `{Decodable BlockHeadersT}.
Context `{Encodable GetBlockBodiesT} `{Decodable GetBlockBodiesT}.
Context `{Encodable BlockBodiesT} `{Decodable BlockBodiesT}.
Context `{Encodable GetPooledTransactionsT} `{Decodable GetPooledTransactionsT}.
Context `{Encodable PooledTransactionsT} `{Decodable PooledTransactionsT}.
Context `{Encodable GetNodeDataT} `{Decodable GetNodeDataT}.
Context `{Encodable NodeDataT} `{Decodable NodeDataT}.
Context `{Encodable GetReceiptsT} `{Decodable GetReceiptsT}.
Context `{Encodable ReceiptsT} `{Decodable ReceiptsT}.

Inductive t :=
| NewBlockHashes (m : NewBlockHashesT)
| NewBlock (m : NewBlockT)
| Transactions (m : TransactionsT)
| NewPooledTransactionHashes (m : NewPooledTransactionHashesT)
| GetBlockHeaders (m : RequestPair.t GetBlockHeadersT)
| BlockHeaders (m : RequestPair.t BlockHeadersT)
| GetBlockBodies (m : RequestPair.t GetBlockBodiesT)
| BlockBodies (m : RequestPair.t BlockBodiesT)
| GetPooledTransactions (m : RequestPair.t GetPooledTransactionsT)
| PooledTransactions (m : RequestPair.t PooledTransactionsT)
| GetNodeData (m : RequestPair.t GetNodeDataT)
| NodeData (m : RequestPair.t NodeDataT)
| GetReceipts (m : RequestPair.t GetReceiptsT)
| Receipts (m : RequestPair.t ReceiptsT).

Definition message_id (self : t) : EthMessageID.t :=
  match self with
  | NewBlockHashes _ => EthMessageID.NewBlockHashes
  | NewBlock _ => EthMessageID.NewBlock
  | Transactions _ => EthMessageID.Transactions
  | NewPooledTransactionHashes _ => EthMessageID.NewPooledTransactionHashes
  | GetBlockHeaders _ => EthMessageID.GetBlockHeaders
  | BlockHeaders _ => EthMessageID.BlockHeaders
  | GetBlockBodies _ => EthMessageID.GetBlockBodies
  | BlockBodies _ => EthMessageID.BlockBodies
  | GetPooledTransactions _ => EthMessageID.GetPooledTransactions
  | PooledTransactions _ => EthMessageID.PooledTransactions
  | GetNodeData _ => EthMessageID.GetNodeData
  | NodeData _ => EthMessageID.NodeData
  | GetReceipts _ => EthMessageID.GetReceipts
  | Receipts _ => EthMessageID.Receipts
  end.

Definition decode (message_id : EthMessageID.t) (buf : bytes) : Decoded t :=
  match message_id with
  | EthMessageID.NewBlockHashes =>
      let? (m, buf) := rlp_decode buf in Ok (NewBlockHashes m, buf)
  | EthMessageID.NewBlock =>
      let? (m, buf) := rlp_decode buf in Ok (NewBlock m, buf)
  | EthMessageID.Transactions =>
      let? (m, buf) := rlp_decode buf in Ok (Transactions m, buf)
  | EthMessageID.NewPooledTransactionHashes =>
      let? (m, buf) := rlp_decode buf in Ok (NewPooledTransactionHashes m, buf)
  | EthMessageID.GetBlockHeaders =>
      let? (request_pair, buf) := RequestPair.decode buf in Ok (GetBlockHeaders request_pair, buf)
  | EthMessageID.BlockHeaders =>
      let? (request_pair, buf) := RequestPair.decode buf in Ok (BlockHeaders request_pair, buf)
  | EthMessageID.GetBlockBodies =>
      let? (request_pair, buf) := RequestPair.decode buf in Ok (GetBlockBodies request_pair, buf)
  | EthMessageID.BlockBodies =>
      let? (request_pair, buf) := RequestPair.decode buf in Ok (BlockBodies request_pair, buf)
  | EthMessageID.GetPooledTransactions =>
      let? (request_pair, buf) := RequestPair.decode buf in Ok (GetPooledTransactions request_pair, buf)
  | EthMessageID.PooledTransactions =>
      let? (request_pair, buf) := RequestPair.decode buf in Ok (PooledTransactions request_pair, buf)
  | EthMessageID.GetNodeData =>
      let? (request_pair, buf) := RequestPair.decode buf in Ok (GetNodeData request_pair, buf)
  | EthMessageID.NodeData =>
      let? (request_pair, buf) := RequestPair.decode buf in Ok (NodeData request_pair, buf)
  | EthMessageID.GetReceipts =>
      let? (request_pair, buf) := RequestPair.decode buf in Ok (GetReceipts request_pair, buf)
  | EthMessageID.Receipts =>
      let? (request_pair, buf) := RequestPair.decode buf in Ok (Receipts request_pair, buf)
  | _ => Err (Custom invalid_message_id)
  end.

Definition encode (self : t) : bytes :=
  match self with
  | NewBlockHashes new_block_hashes => rlp_encode new_block_hashes
  | NewBlock new_block => rlp_encode new_block
  | Transactions transactions => rlp_encode transactions
  | NewPooledTransactionHashes hashes => rlp_encode hashes
  | GetBlockHeaders request => RequestPair.encode request
  | BlockHeaders headers => RequestPair.encode headers
  | GetBlockBodies request => RequestPair.encode request
  | BlockBodies bodies => RequestPair.encode bodies
  | GetPooledTransactions request => RequestPair.encode request
  | PooledTransactions transactions => RequestPair.encode transactions
  | GetNodeData request => RequestPair.encode request
  | NodeData data => RequestPair.encode data
  | GetReceipts request => RequestPair.encode request
  | Receipts receipts => RequestPair.encode receipts
  end.

Definition length (self : t) : nat :=
  match self with
  | NewBlockHashes new_block_hashes => rlp_length new_block_hashes
  | NewBlock new_block => rlp_length new_block
  | Transactions transactions => rlp_length transactions
  | NewPooledTransactionHashes hashes => rlp_length hashes
  | GetBlockHeaders request => RequestPair.length request
  | BlockHeaders headers => RequestPair.length headers
  | GetBlockBodies request => RequestPair.length request
  | BlockBodies bodies => RequestPair.length bodies
  | GetPooledTransactions request => RequestPair.length request
  | PooledTransactions transactions => RequestPair.length transactions
  | GetNodeData request => RequestPair.length request
  | NodeData data => RequestPair.length data
  | GetReceipts request => RequestPair.length request
  | Receipts receipts => RequestPair.length receipts
  end.

(** The payload of [self], followed by [rest], decodes back to itself. *)
Definition payload_round_trips (self : t) (rest : bytes) : Prop :=
  match self with
  | NewBlockHashes m => rlp_decode (rlp_encode m ++ rest) = Ok (m, rest)
  | NewBlock m => rlp_decode (rlp_encode m ++ rest) = Ok (m, rest)
  | Transactions m => rlp_decode (rlp_encode m ++ rest) = Ok (m, rest)
  | NewPooledTransactionHashes m => rlp_decode (rlp_encode m ++ rest) = Ok (m, rest)
  | GetBlockHeaders m => RequestPair.decode (RequestPair.encode m ++ rest) = Ok (m, rest)
  | BlockHeaders m => RequestPair.decode (RequestPair.encode m ++ rest) = Ok (m, rest)
  | GetBlockBodies m => RequestPair.decode (RequestPair.encode m ++ rest) = Ok (m, rest)
  | BlockBodies m => RequestPair.decode (RequestPair.encode m ++ rest) = Ok (m, rest)
  | GetPooledTransactions m => RequestPair.decode (RequestPair.encode m ++ rest) = Ok (m, rest)
  | PooledTransactions m => RequestPair.decode (RequestPair.encode m ++ rest) = Ok (m, rest)
  | GetNodeData m => RequestPair.decode (RequestPair.encode m ++ rest) = Ok (m, rest)
  | NodeData m => RequestPair.decode (RequestPair.encode m ++ rest) = Ok (m, rest)
  | GetReceipts m => RequestPair.decode (RequestPair.encode m ++ rest) = Ok (m, rest)
  | Receipts m => RequestPair.decode (RequestPair.encode m ++ rest) = Ok (m, rest)
  end.

End Impl.
Arguments t NewBlockHashesT NewBlockT TransactionsT NewPooledTransactionHashesT GetBlockHeadersT BlockHeadersT GetBlockBodiesT BlockBodiesT GetPooledTransactionsT PooledTransactionsT GetNodeDataT NodeDataT GetReceiptsT ReceiptsT : clear implicits.

End Eth66Message.

(** *** [Eth67Message] ([types/eth67message.rs]) *)

Module Eth67Message.
Section Impl.
Context {NewBlockHashesT NewBlockT TransactionsT NewPooledTransactionHashesT GetBlockHeadersT BlockHeadersT GetBlockBodiesT BlockBodiesT GetPooledTransactionsT PooledTransactionsT GetReceiptsT ReceiptsT : Type}.
Context `{Encodable NewBlockHashesT} `{Decodable NewBlockHashesT}.
Context `{Encodable NewBlockT} `{Decodable NewBlockT}.
Context `{Encodable TransactionsT} `{Decodable TransactionsT}.
Context `{Encodable NewPooledTransactionHashesT} `{Decodable NewPooledTransactionHashesT}.
Context `{Encodable GetBlockHeadersT} `{Decodable GetBlockHeadersT}.
Context `{Encodable BlockHeadersT} `{Decodable BlockHeadersT}.
Context `{Encodable GetBlockBodiesT} `{Decodable GetBlockBodiesT}.
Context `{Encodable BlockBodiesT} `{Decodable BlockBodiesT}.
Context `{Encodable GetPooledTransactionsT} `{Decodable GetPooledTransactionsT}.
Context `{Encodable PooledTransactionsT} `{Decodable PooledTransactionsT}.
Context `{Encodable GetReceiptsT} `{Decodable GetReceiptsT}.
Context `{Encodable ReceiptsT} `{Decodable ReceiptsT}.

Inductive t :=
| NewBlockHashes (m : NewBlockHashesT)
| NewBlock (m : NewBlockT)
| Transactions (m : TransactionsT)
| NewPooledTransactionHashes (m : NewPooledTransactionHashesT)
| GetBlockHeaders (m : RequestPair.t GetBlockHeadersT)
| BlockHeaders (m : RequestPair.t BlockHeadersT)
| GetBlockBodies (m : RequestPair.t GetBlockBodiesT)
| BlockBodies (m : RequestPair.t BlockBodiesT)
| GetPooledTransactions (m : RequestPair.t GetPooledTransactionsT)
| PooledTransactions (m : RequestPair.t PooledTransactionsT)
| GetReceipts (m : RequestPair.t GetReceiptsT)
| Receipts (m : RequestPair.t ReceiptsT).

Definition message_id (self : t) : EthMessageID.t :=
  match self with
  | NewBlockHashes _ => EthMessageID.NewBlockHashes
  | NewBlock _ => EthMessageID.NewBlock
  | Transactions _ => EthMessageID.Transactions
  | NewPooledTransactionHashes _ => EthMessageID.NewPooledTransactionHashes
  | GetBlockHeaders _ => EthMessageID.GetBlockHeaders
  | BlockHeaders _ => EthMessageID.BlockHeaders
  | GetBlockBodies _ => EthMessageID.GetBlockBodies
  | BlockBodies _ => EthMessageID.BlockBodies
  | GetPooledTransactions _ => EthMessageID.GetPooledTransactions
  | PooledTransactions _ => EthMessageID.PooledTransactions
  | GetReceipts _ => EthMessageID.GetReceipts
  | Receipts _ => EthMessageID.Receipts
  end.

Definition decode (message_id : EthMessageID.t) (buf : bytes) : Decoded t :=
  match message_id with
  | EthMessageID.NewBlockHashes =>
      let? (m, buf) := rlp_decode buf in Ok (NewBlockHashes m, buf)
  | EthMessageID.NewBlock =>
      let? (m, buf) := rlp_decode buf in Ok (NewBlock m, buf)
  | EthMessageID.Transactions =>
      let? (m, buf) := rlp_decode buf in Ok (Transactions m, buf)
  | EthMessageID.NewPooledTransactionHashes =>
      let? (m, buf) := rlp_decode buf in Ok (NewPooledTransactionHashes m, buf)
  | EthMessageID.GetBlockHeaders =>
      let? (request_pair, buf) := RequestPair.decode buf in Ok (GetBlockHeaders request_pair, buf)
  | EthMessageID.BlockHeaders =>
      let? (request_pair, buf) := RequestPair.decode buf in Ok (BlockHeaders request_pair, buf)
  | EthMessageID.GetBlockBodies =>
      let? (request_pair, buf) := RequestPair.decode buf in Ok (GetBlockBodies request_pair, buf)
  | EthMessageID.BlockBodies =>
      let? (request_pair, buf) := RequestPair.decode buf in Ok (BlockBodies request_pair, buf)
  | EthMessageID.GetPooledTransactions =>
      let? (request_pair, buf) := RequestPair.decode buf in Ok (GetPooledTransactions request_pair, buf)
  | EthMessageID.PooledTransactions =>
      let? (request_pair, buf) := RequestPair.decode buf in Ok (PooledTransactions request_pair, buf)
  | EthMessageID.GetReceipts =>
      let? (request_pair, buf) := RequestPair.decode buf in Ok (GetReceipts request_pair, buf)
  | EthMessageID.Receipts =>
      let? (request_pair, buf) := RequestPair.decode buf in Ok (Receipts request_pair, buf)
  | _ => Err (Custom invalid_message_id)
  end.

Definition encode (self : t) : bytes :=
  match self with
  | NewBlockHashes new_block_hashes => rlp_encode new_block_hashes
  | NewBlock new_block => rlp_encode new_block
  | Transactions transactions => rlp_encode transactions
  | NewPooledTransactionHashes hashes => rlp_encode hashes
  | GetBlockHeaders request => RequestPair.encode request
  | BlockHeaders headers => RequestPair.encode headers
  | GetBlockBodies request => RequestPair.encode request
  | BlockBodies bodies => RequestPair.encode bodies
  | GetPooledTransactions request => RequestPair.encode request
  | PooledTransactions transactions => RequestPair.encode transactions
  | GetReceipts request => RequestPair.encode request
  | Receipts receipts => RequestPair.encode receipts
  end.

Definition length (self : t) : nat :=
  match self with
  | NewBlockHashes new_block_hashes => rlp_length new_block_hashes
  | NewBlock new_block => rlp_length new_block
  | Transactions transactions => rlp_length transactions
  | NewPooledTransactionHashes hashes => rlp_length hashes
  | GetBlockHeaders request => RequestPair.length request
  | BlockHeaders headers => RequestPair.length headers
  | GetBlockBodies request => RequestPair.length request
  | BlockBodies bodies => RequestPair.length bodies
  | GetPooledTransactions request => RequestPair.length request
  | PooledTransactions transactions => RequestPair.length transactions
  | GetReceipts request => RequestPair.length request
  | Receipts receipts => RequestPair.length receipts
  end.

(** The payload of [self], followed by [rest], decodes back to itself. *)
Definition payload_round_trips (self : t) (rest : bytes) : Prop :=
  match self with
  | NewBlockHashes m => rlp_decode (rlp_encode m ++ rest) = Ok (m, rest)
  | NewBlock m => rlp_decode (rlp_encode m ++ rest) = Ok (m, rest)
  | Transactions m => rlp_decode (rlp_encode m ++ rest) = Ok (m, rest)
  | NewPooledTransactionHashes m => rlp_decode (rlp_encode m ++ rest) = Ok (m, rest)
  | GetBlockHeaders m => RequestPair.decode (RequestPair.encode m ++ rest) = Ok (m, rest)
  | BlockHeaders m => RequestPair.decode (RequestPair.encode m ++ rest) = Ok (m, rest)
  | GetBlockBodies m => RequestPair.decode (RequestPair.encode m ++ rest) = Ok (m, rest)
  | BlockBodies m => RequestPair.decode (RequestPair.encode m ++ rest) = Ok (m, rest)
  | GetPooledTransactions m => RequestPair.decode (RequestPair.encode m ++ rest) = Ok (m, rest)
  | PooledTransactions m => RequestPair.decode (RequestPair.encode m ++ rest) = Ok (m, rest)
  | GetReceipts m => RequestPair.decode (RequestPair.encode m ++ rest) = Ok (m, rest)
  | Receipts m => RequestPair.decode (RequestPair.encode m ++ rest) = Ok (m, rest)
  end.

End Impl.
Arguments t NewBlockHashesT NewBlockT TransactionsT NewPooledTransactionHashesT GetBlockHeadersT BlockHeadersT GetBlockBodiesT BlockBodiesT GetPooledTransactionsT PooledTransactionsT GetReceiptsT ReceiptsT : clear implicits.

End Eth67Message.

(** *** [Eth68Message] ([types/eth68message.rs]) *)

Module Eth68Message.
Section Impl.
Context {NewBlockHashesT NewBlockT TransactionsT NewPooledTransactionHashesT GetBlockHeadersT BlockHeadersT GetBlockBodiesT BlockBodiesT GetPooledTransactionsT PooledTransactionsT GetReceiptsT ReceiptsT : Type}.
Context `{Encodable NewBlockHashesT} `{Decodable NewBlockHashesT}.
Context `{Encodable NewBlockT} `{Decodable NewBlockT}.
Context `{Encodable TransactionsT} `{Decodable TransactionsT}.
Context `{Encodable NewPooledTransactionHashesT} `{Decodable NewPooledTransactionHashesT}.
Context `{Encodable GetBlockHeadersT} `{Decodable GetBlockHeadersT}.
Context `{Encodable BlockHeadersT} `{Decodable BlockHeadersT}.
Context `{Encodable GetBlockBodiesT} `{Decodable GetBlockBodiesT}.
Context `{Encodable BlockBodiesT} `{Decodable BlockBodiesT}.
Context `{Encodable GetPooledTransactionsT} `{Decodable GetPooledTransactionsT}.
Context `{Encodable PooledTransactionsT} `{Decodable PooledTransactionsT}.
Context `{Encodable GetReceiptsT} `{Decodable GetReceiptsT}.
Context `{Encodable ReceiptsT} `{Decodable ReceiptsT}.

Inductive t :=
| NewBlockHashes (m : NewBlockHashesT)
| NewBlock (m : NewBlockT)
| Transactions (m : TransactionsT)
| NewPooledTransactionHashes (m : NewPooledTransactionHashesT)
| GetBlockHeaders (m : RequestPair.t GetBlockHeadersT)
| BlockHeaders (m : RequestPair.t BlockHeadersT)
| GetBlockBodies (m : RequestPair.t GetBlockBodiesT)
| BlockBodies (m : RequestPair.t BlockBodiesT)
| GetPooledTransactions (m : RequestPair.t GetPooledTransactionsT)
| PooledTransactions (m : RequestPair.t PooledTransactionsT)
| GetReceipts (m : RequestPair.t GetReceiptsT)
| Receipts (m : RequestPair.t ReceiptsT).

Definition message_id (self : t) : EthMessageID.t :=
  match self with
  | NewBlockHashes _ => EthMessageID.NewBlockHashes
  | NewBlock _ => EthMessageID.NewBlock
  | Transactions _ => EthMessageID.Transactions
  | NewPooledTransactionHashes _ => EthMessageID.NewPooledTransactionHashes
  | GetBlockHeaders _ => EthMessageID.GetBlockHeaders
  | BlockHeaders _ => EthMessageID.BlockHeaders
  | GetBlockBodies _ => EthMessageID.GetBlockBodies
  | BlockBodies _ => EthMessageID.BlockBodies
  | GetPooledTransactions _ => EthMessageID.GetPooledTransactions
  | PooledTransactions _ => EthMessageID.PooledTransactions
  | GetReceipts _ => EthMessageID.GetReceipts
  | Receipts _ => EthMessageID.Receipts
  end.

Definition decode (message_id : EthMessageID.t) (buf : bytes) : Decoded t :=
  match message_id with
  | EthMessageID.NewBlockHashes =>
      let? (m, buf) := rlp_decode buf in Ok (NewBlockHashes m, buf)
  | EthMessageID.NewBlock =>
      let? (m, buf) := rlp_decode buf in Ok (NewBlock m, buf)
  | EthMessageID.Transactions =>
      let? (m, buf) := rlp_decode buf in Ok (Transactions m, buf)
  | EthMessageID.NewPooledTransactionHashes =>
      let? (m, buf) := rlp_decode buf in Ok (NewPooledTransactionHashes m, buf)
  | EthMessageID.GetBlockHeaders =>
      let? (request_pair, buf) := RequestPair.decode buf in Ok (GetBlockHeaders request_pair, buf)
  | EthMessageID.BlockHeaders =>
      let? (request_pair, buf) := RequestPair.decode buf in Ok (BlockHeaders request_pair, buf)
  | EthMessageID.GetBlockBodies =>
      let? (request_pair, buf) := RequestPair.decode buf in Ok (GetBlockBodies request_pair, buf)
  | EthMessageID.BlockBodies =>
      let? (request_pair, buf) := RequestPair.decode buf in Ok (BlockBodies request_pair, buf)
  | EthMessageID.GetPooledTransactions =>
      let? (request_pair, buf) := RequestPair.decode buf in Ok (GetPooledTransactions request_pair, buf)
  | EthMessageID.PooledTransactions =>
      let? (request_pair, buf) := RequestPair.decode buf in Ok (PooledTransactions request_pair, buf)
  | EthMessageID.GetReceipts =>
      let? (request_pair, buf) := RequestPair.decode buf in Ok (GetReceipts request_pair, buf)
  | EthMessageID.Receipts =>
      let? (request_pair, buf) := RequestPair.decode buf in Ok (Receipts request_pair, buf)
  | _ => Err (Custom invalid_message_id)
  end.

Definition encode (self : t) : bytes :=
  match self with
  | NewBlockHashes new_block_hashes => rlp_encode new_block_hashes
  | NewBlock new_block => rlp_encode new_block
  | Transactions transactions => rlp_encode transactions
  | NewPooledTransactionHashes hashes => rlp_encode hashes
  | GetBlockHeaders request => RequestPair.encode request
  | BlockHeaders headers => RequestPair.encode headers
  | GetBlockBodies request => RequestPair.encode request
  | BlockBodies bodies => RequestPair.encode bodies
  | GetPooledTransactions request => RequestPair.encode request
  | PooledTransactions transactions => RequestPair.encode transactions
  | GetReceipts request => RequestPair.encode request
  | Receipts receipts => RequestPair.encode receipts
  end.

Definition length (self : t) : nat :=
  match self with
  | NewBlockHashes new_block_hashes => rlp_length new_block_hashes
  | NewBlock new_block => rlp_length new_block
  | Transactions transactions => rlp_length transactions
  | NewPooledTransactionHashes hashes => rlp_length hashes
  | GetBlockHeaders request => RequestPair.length request
  | BlockHeaders headers => RequestPair.length headers
  | GetBlockBodies request => RequestPair.length request
  | BlockBodies bodies => RequestPair.length bodies
  | GetPooledTransactions request => RequestPair.length request
  | PooledTransactions transactions => RequestPair.length transactions
  | GetReceipts request => RequestPair.length request
  | Receipts receipts => RequestPair.length receipts
  end.

(** The payload of [self], followed by [rest], decodes back to itself. *)
Definition payload_round_trips (self : t) (rest : bytes) : Prop :=
  match self with
  | NewBlockHashes m => rlp_decode (rlp_encode m ++ rest) = Ok (m, rest)
  | NewBlock m => rlp_decode (rlp_encode m ++ rest) = Ok (m, rest)
  | Transactions m => rlp_decode (rlp_encode m ++ rest) = Ok (m, rest)
  | NewPooledTransactionHashes m => rlp_decode (rlp_encode m ++ rest) = Ok (m, rest)
  | GetBlockHeaders m => RequestPair.decode (RequestPair.encode m ++ rest) = Ok (m, rest)
  | BlockHeaders m => RequestPair.decode (RequestPair.encode m ++ rest) = Ok (m, rest)
  | GetBlockBodies m => RequestPair.decode (RequestPair.encode m ++ rest) = Ok (m, rest)
  | BlockBodies m => RequestPair.decode (RequestPair.encode m ++ rest) = Ok (m, rest)
  | GetPooledTransactions m => RequestPair.decode (RequestPair.encode m ++ rest) = Ok (m, rest)
  | PooledTransactions m => RequestPair.decode (RequestPair.encode m ++ rest) = Ok (m, rest)
  | GetReceipts m => RequestPair.decode (RequestPair.encode m ++ rest) = Ok (m, rest)
  | Receipts m => RequestPair.decode (RequestPair.encode m ++ rest) = Ok (m, rest)
  end.

End Impl.
Arguments t NewBlockHashesT NewBlockT TransactionsT NewPooledTransactionHashesT GetBlockHeadersT BlockHeadersT GetBlockBodiesT BlockBodiesT GetPooledTransactionsT PooledTransactionsT GetReceiptsT ReceiptsT : clear implicits.

End Eth68Message.

End EthWire.

Example seek_example :
  fst (seek (mdbx_cursor RO U8Table keys_1_to_9 false) x04) = Ok (Some (x05, x50)).
Proof. reflexivity. Qed.

Example append_example :
  let c0 := mdbx_cursor RW U8Table [] false in
  let (r1, c1) := append c0 x05 x01 in
  let (r2, _) := append c1 x03 x01 in
  r1 = Ok tt /\ r2 = Err (Write (to_err_code KeyMismatch)).
Proof. split; reflexivity. Qed.

Example walk_dup_example :
  fst (walk_dup (mdbx_cursor RO U8DupTable [([x05], [x01; xaa]); ([x05], [x03; xbb]); ([x06], [x00; xcc])] true)
        (Some x05) (Some x02))
  = Ok (@mkDupWalker RO U8DupTable _ (mkCursor (Mdbx.mkState [([x05], [x01; xaa]); ([x05], [x03; xbb]); ([x06], [x00; xcc])] true (Some 1)))
          (Some (Ok (x05, (x03, xbb))))).
Proof. reflexivity. Qed.

(** ** The byte order *)

Lemma byte_cmp_eq (a b : Byte.byte) : byte_cmp a b = Eq <-> a = b.
Proof.
  unfold byte_cmp. rewrite Nat.compare_eq_iff. split; [intro Hab | intros ->; reflexivity].
  assert (Some a = Some b) as Hs.
  { rewrite <- (Byte.of_to_nat a), <- (Byte.of_to_nat b), Hab. reflexivity. }
  congruence.
Qed.

Lemma byte_cmp_opp (a b : Byte.byte) : byte_cmp b a = CompOpp (byte_cmp a b).
Proof. unfold byte_cmp. apply Nat.compare_antisym. Qed.

Lemma byte_cmp_trans (a b c : Byte.byte) (o : comparison) :
  byte_cmp a b = o -> byte_cmp b c = o -> byte_cmp a c = o.
Proof.
  unfold byte_cmp. destruct o.
  - rewrite !Nat.compare_eq_iff. lia.
  - rewrite !Nat.compare_lt_iff. lia.
  - rewrite !Nat.compare_gt_iff. lia.
Qed.

Lemma bytes_cmp_eq (a b : bytes) : bytes_cmp a b = Eq <-> a = b.
Proof. apply list_compare_refl, byte_cmp_eq. Qed.

Lemma bytes_cmp_opp (a b : bytes) : bytes_cmp b a = CompOpp (bytes_cmp a b).
Proof.
  apply list_compare_antisym; [apply byte_cmp_eq | intros; apply byte_cmp_opp].
Qed.

Lemma bytes_cmp_trans (a b c : bytes) (o : comparison) :
  bytes_cmp a b = o -> bytes_cmp b c = o -> bytes_cmp a c = o.
Proof.
  apply list_compare_trans;
    [apply byte_cmp_eq | intros; eapply byte_cmp_trans; eauto | intros; apply byte_cmp_opp].
Qed.

Lemma bytes_eqb_true (a b : bytes) : bytes_eqb a b = true <-> a = b.
Proof.
  unfold bytes_eqb. rewrite <- bytes_cmp_eq.
  destruct (bytes_cmp a b); split; congruence.
Qed.

Lemma bytes_eqb_refl (a : bytes) : bytes_eqb a a = true.
Proof. apply bytes_eqb_true. reflexivity. Qed.

Lemma bytes_leb_refl (a : bytes) : bytes_leb a a = true.
Proof. unfold bytes_leb. rewrite (proj2 (bytes_cmp_eq a a) eq_refl). reflexivity. Qed.

Lemma bytes_leb_cases (a b : bytes) :
  bytes_leb a b = true -> a = b \/ bytes_ltb a b = true.
Proof.
  unfold bytes_leb, bytes_ltb. destruct (bytes_cmp a b) eqn:E; try discriminate; auto.
  intros _. left. apply bytes_cmp_eq. exact E.
Qed.

Lemma bytes_ltb_trans (a b c : bytes) :
  bytes_ltb a b = true -> bytes_ltb b c = true -> bytes_ltb a c = true.
Proof.
  unfold bytes_ltb.
  destruct (bytes_cmp a b) eqn:E1; try discriminate.
  destruct (bytes_cmp b c) eqn:E2; try discriminate.
  rewrite (bytes_cmp_trans a b c Lt E1 E2). reflexivity.
Qed.

Lemma bytes_leb_trans (a b c : bytes) :
  bytes_leb a b = true -> bytes_leb b c = true -> bytes_leb a c = true.
Proof.
  intros H1 H2.
  destruct (bytes_leb_cases a b H1) as [-> | L1]; [exact H2 |].
  destruct (bytes_leb_cases b c H2) as [<- | L2]; [exact H1 |].
  pose proof (bytes_ltb_trans a b c L1 L2) as L.
  unfold bytes_ltb, bytes_leb in *. destruct (bytes_cmp a c); congruence.
Qed.

Lemma bytes_leb_ltb_trans (a b c : bytes) :
  bytes_leb a b = true -> bytes_ltb b c = true -> bytes_ltb a c = true.
Proof.
  intros H1 H2. destruct (bytes_leb_cases a b H1) as [-> | L1]; [exact H2 |].
  eapply bytes_ltb_trans; eauto.
Qed.

Lemma bytes_ltb_irrefl (a : bytes) : bytes_ltb a a = false.
Proof. unfold bytes_ltb. rewrite (proj2 (bytes_cmp_eq a a) eq_refl). reflexivity. Qed.

(** ** Decoding *)

Lemma decoder_err (T : Table) (kv : Pair) (e : Error) : decoder T kv = Err e -> e = Decode.
Proof.
  unfold decoder. destruct (key_decode T (fst kv)), (value_decompress T (snd kv)); congruence.
Qed.

Lemma transpose_decode_ok (T : Table) (o : option Pair) :
  transpose (decode T (Ok o)) = map_opt (decoder T) o.
Proof.
  destruct o as [kv |]; simpl; [| reflexivity].
  destruct (decoder T kv); reflexivity.
Qed.

(** The outcomes of [decode!]: a decoded pair, absence, a decoding failure
    and a native read failure, each from exactly one kind of native result. *)
Lemma decode_outcomes (T : Table) (r : NResult (option Pair)) :
  (decode T r = Ok None <-> r = Ok None) /\
  (forall p, decode T r = Ok (Some p) <-> exists kv, r = Ok (Some kv) /\ decoder T kv = Ok p) /\
  (decode T r = Err Decode <-> exists kv, r = Ok (Some kv) /\ decoder T kv = Err Decode) /\
  (forall code, decode T r = Err (Read code) <-> exists e, r = Err e /\ code = to_err_code e) /\
  (forall err, decode T r = Err err -> err = Decode \/ exists code, err = Read code).
Proof.
  destruct r as [[kv |] | e]; simpl.
  - destruct (decoder T kv) as [p | d] eqn:Hd.
    + repeat split; intros; try congruence.
      * exists kv. split; congruence.
      * destruct H as (kv' & H1 & H2). congruence.
      * destruct H as (kv' & H1 & H2). congruence.
      * destruct H as (e & H1 & H2). congruence.
    + pose proof (decoder_err T kv d Hd) as ->.
      repeat split; intros; try congruence.
      * destruct H as (kv' & H1 & H2). congruence.
      * exists kv. split; congruence.
      * destruct H as (e & H1 & H2). congruence.
      * left. congruence.
  - repeat split; intros; try congruence.
    + destruct H as (kv' & H1 & H2). congruence.
    + destruct H as (kv' & H1 & H2). congruence.
    + destruct H as (e & H1 & H2). congruence.
  - repeat split; intros; try congruence.
    + destruct H as (kv' & H1 & H2). congruence.
    + destruct H as (kv' & H1 & H2). congruence.
    + exists e. split; congruence.
    + destruct H as (e' & H1 & H2). congruence.
    + right. exists (to_err_code e). congruence.
Qed.

Lemma find_index_nth (p : Pair -> bool) (l : list Pair) :
  match Mdbx.find_index p l with Some i => nth_error l i | None => None end = find p l.
Proof.
  induction l as [| x l IH]; simpl; [reflexivity |].
  destruct (p x); [reflexivity |].
  destruct (Mdbx.find_index p l); exact IH.
Qed.

(** ** C1: a contradictory range fails at construction *)

(** C1. For an [Included(k)] start and an [Included(e)] or [Excluded(e)] end
    with [e < k], [walk_range] returns at once, before touching the cursor,
    with the error [Error::Read(2)]. *)
Theorem walk_range_contradictory_read_error {S} `{NativeCursor S} {K : TransactionKind}
  {T : Table} (c : Cursor K T S) (k e : Key T) :
  key_lt T e k = true ->
  walk_range c (Included k, Included e) = Ret (Err (Read 2), c) /\
  walk_range c (Included k, Excluded e) = Ret (Err (Read 2), c).
Proof. intros He. unfold walk_range; simpl. rewrite He. split; reflexivity. Qed.

Lemma walk_range_contradictory_read_error_witness :
  key_lt U8Table x03 x09 = true /\
  walk_range (mdbx_cursor RO U8Table keys_1_to_9 false) (Included x09, Included x03)
    = Ret (Err (Read 2), mdbx_cursor RO U8Table keys_1_to_9 false) /\
  walk_range (mdbx_cursor RO U8Table keys_1_to_9 false) (Included x09, Excluded x03)
    = Ret (Err (Read 2), mdbx_cursor RO U8Table keys_1_to_9 false).
Proof.
  split; [reflexivity |].
  apply (walk_range_contradictory_read_error (mdbx_cursor RO U8Table keys_1_to_9 false) x09 x03).
  reflexivity.
Defined.

(** C1, as stated, fails: [walk_range(Included(9)..Included(3))] reports
    [Read(2)], not [InvalidRange]. *)
Lemma walk_range_contradictory_not_invalid_range :
  ~ (exists c', walk_range (mdbx_cursor RO U8Table keys_1_to_9 false) (Included x09, Included x03)
                = Ret (Err InvalidRange, c')).
Proof. intros [c' Hc]. cbv in Hc. congruence. Qed.

(** ** C2: an excluded start bound *)

(** C2 (a defect of the code).  For every range whose start bound is
    [Excluded(k)], [walk_range] panics through [unreachable!] and returns no
    result, where the spec asks for a construction error.  The branch is
    reachable: [walk_range] takes any [impl RangeBounds], and a pair of
    bounds such as [(Bound::Excluded(k), Bound::Unbounded)] is one. *)
Theorem walk_range_excluded_start_panics {S} `{NativeCursor S} {K : TransactionKind}
  {T : Table} (c : Cursor K T S) (k : Key T) (e : Bound (Key T)) :
  walk_range c (Excluded k, e) = Panic walk_range_unreachable.
Proof. reflexivity. Qed.

(** The failing input of C2: [walk_range((Excluded(3), Unbounded))] returns
    no error result, it panics. *)
Lemma walk_range_excluded_start_no_error_result :
  ~ (exists r, walk_range (mdbx_cursor RO U8Table keys_1_to_9 false) (Excluded x03, Unbounded) = Ret r).
Proof. intros [r Hr]. cbv in Hr. congruence. Qed.

(** ** C3: [walk_dup(None, Some(subkey))] on an empty table *)

(** C3. On an empty table, [walk_dup] with no key and a sub-key constructs a
    [DupWalker] whose cached start item is the error [Read(MDBX_NOTFOUND)];
    pulling the walker yields that error, then nothing. *)
Theorem walk_dup_empty_table_not_found (K : TransactionKind) (T : DupSort) (dup : bool)
  (p : option nat) (sk : SubKey T) :
  let c1 : Cursor K T Mdbx.MdbxState := mkCursor (Mdbx.mkState [] dup None) in
  let err : Result (Key T * Value T) Error := Err (Read (to_err_code NotFound)) in
  walk_dup (mkCursor (Mdbx.mkState [] dup p)) None (Some sk) = (Ok (mkDupWalker c1 (Some err)), c1) /\
  dup_walker_next (mkDupWalker c1 (Some err)) = (Some err, mkDupWalker c1 None) /\
  fst (dup_walker_next (mkDupWalker c1 None)) = None.
Proof. repeat split. Qed.

(** ** C4: the outcomes of the basic reads *)

(** C4. Each basic read ([first], [last], [next], [prev], [current], [seek],
    [seek_exact]) returns [decode!] of its native primitive; that result is
    [Ok(None)] exactly on native absence, [Ok(Some(pair))] on a decoded
    entry, [Err(Decode)] exactly on a malformed entry and [Err(Read(code))]
    exactly on a native failure, and no other error arises. *)
Theorem basic_reads_distinguish_outcomes {S} `{NativeCursor S} {K : TransactionKind}
  {T : Table} (c : Cursor K T S) :
  fst (first c) = decode T (fst (n_first (inner c))) /\
  fst (last c) = decode T (fst (n_last (inner c))) /\
  fst (next c) = decode T (fst (n_next (inner c))) /\
  fst (prev c) = decode T (fst (n_prev (inner c))) /\
  fst (current c) = decode T (fst (n_get_current (inner c))) /\
  (forall k, fst (seek c k) = decode T (fst (n_set_range (inner c) (key_encode T k)))) /\
  (forall k, fst (seek_exact c k) = decode T (fst (n_set_key (inner c) (key_encode T k)))) /\
  (forall r : NResult (option Pair),
    (decode T r = Ok None <-> r = Ok None) /\
    (forall p, decode T r = Ok (Some p) <-> exists kv, r = Ok (Some kv) /\ decoder T kv = Ok p) /\
    (decode T r = Err Decode <-> exists kv, r = Ok (Some kv) /\ decoder T kv = Err Decode) /\
    (forall code, decode T r = Err (Read code) <-> exists e, r = Err e /\ code = to_err_code e) /\
    (forall err, decode T r = Err err -> err = Decode \/ exists code, err = Read code)).
Proof.
  do 7 (split; [try intros; reflexivity |]).
  intros r. apply decode_outcomes.
Qed.

(** ** C7: the first item of [walk] *)

(** C7 (amended). [walk(None)] always constructs a [Walker] caching
    [first()] (an error of [first()] included); [walk(Some(k))] returns the
    [Read] error of a failing native seek, and otherwise constructs a
    [Walker] caching [seek(k)]; on the sorted table [seek(k)] is the first
    entry whose encoded key is at least the encoding of [k]. *)
Theorem walk_start_item :
  (forall S `{NativeCursor S} K (T : Table) (c : Cursor K T S),
     walk c None = (Ok (mkWalker (snd (first c)) (transpose (fst (first c)))), snd (first c))) /\
  (forall S `{NativeCursor S} K (T : Table) (c : Cursor K T S) (k : Key T),
     walk c (Some k) =
       match fst (n_set_range (inner c) (key_encode T k)) with
       | Err e => (Err (Read (to_err_code e)), snd (seek c k))
       | Ok _ => (Ok (mkWalker (snd (seek c k)) (transpose (fst (seek c k)))), snd (seek c k))
       end) /\
  (forall K (T : Table) l dup p (k : Key T),
     fst (seek (K := K) (T := T) (mkCursor (Mdbx.mkState l dup p)) k)
     = decode T (Ok (find (fun e => bytes_leb (key_encode T k) (fst e)) l))).
Proof.
  split; [| split].
  - intros S NC K T c. unfold walk. destruct (first c). reflexivity.
  - intros S NC K T c k. unfold walk, seek, read_pair. simpl.
    destruct (n_set_range (inner c) (key_encode T k)) as [[o | e] s'].
    + simpl. destruct o as [kv |]; simpl; [destruct (decoder T kv) |]; reflexivity.
    + reflexivity.
  - intros K T l dup p k. unfold seek, read_pair. simpl.
    unfold Mdbx.set_range, Mdbx.seek_first. simpl.
    rewrite <- find_index_nth.
    destruct (Mdbx.find_index _ l) as [i |]; simpl; [| reflexivity].
    unfold Mdbx.at_pos. simpl. destruct (nth_error l i); reflexivity.
Qed.

(** C7, as stated, fails: when the native seek reports a failure,
    [walk(Some(k))] constructs no walker. *)
Lemma walk_some_native_failure_no_walker :
  ~ (exists w c', walk (mkCursor (K := RO) (T := U8Table) (Faulty.mkFaulty Corrupted)) (Some x05)
                  = (Ok w, c')).
Proof. intros (w & c' & Hw). cbv in Hw. congruence. Qed.

(** ** C10: an end bound equal to the start key *)




(** ** The sorted-table engine *)

Lemma last_entry_none (l : list Pair) : Mdbx.last_entry l = None -> l = [].
Proof.
  induction l as [| a l IH]; [reflexivity |].
  destruct l as [| b l']; simpl; [discriminate |].
  intros H. specialize (IH H). discriminate.
Qed.

Lemma last_entry_max (l : list Pair) (e : Pair) :
  keys_sorted l -> Mdbx.last_entry l = Some e ->
  In e l /\ forall x, In x l -> bytes_leb (fst x) (fst e) = true.
Proof.
  induction l as [| a l IH]; [discriminate |].
  intros Hs He. inversion Hs as [| ? ? Hs' Hhd]; subst.
  destruct l as [| b l'].
  - simpl in He. inversion He; subst.
    split; [left; reflexivity |]. intros x [<- | []]. apply bytes_leb_refl.
  - change (Mdbx.last_entry (b :: l') = Some e) in He.
    destruct (IH Hs' He) as [Hin Hmax].
    split; [right; exact Hin |].
    intros x [<- | Hx]; [| exact (Hmax x Hx)].
    inversion Hhd; subst.
    eapply bytes_leb_trans; [eassumption | apply Hmax; left; reflexivity].
Qed.

Lemma in_keys (k : bytes) (l : list Pair) : In k (map fst l) <-> exists v, In (k, v) l.
Proof.
  rewrite in_map_iff. split.
  - intros ([k' v] & Hk & Hin). simpl in Hk. subst. exists v. exact Hin.
  - intros (v & Hin). exists (k, v). auto.
Qed.

Lemma key_present_in (k : bytes) (l : list Pair) :
  Mdbx.key_present k l = true <-> In k (map fst l).
Proof.
  unfold Mdbx.key_present. rewrite existsb_exists, in_map_iff. split.
  - intros (e & Hin & Heq). apply bytes_eqb_true in Heq. exists e. auto.
  - intros (e & Heq & Hin). exists e. split; [exact Hin |]. apply bytes_eqb_true. exact Heq.
Qed.

Lemma insert_sorted_in (x e : Pair) (l : list Pair) :
  In e (Mdbx.insert_sorted x l) <-> In e (x :: l).
Proof.
  induction l as [| a l IH]; simpl; [reflexivity |].
  destruct (Mdbx.entry_ltb x a); simpl; [reflexivity |].
  rewrite IH. simpl. tauto.
Qed.

Lemma pair_eqb_true (a b : Pair) : Mdbx.pair_eqb a b = true <-> a = b.
Proof.
  destruct a as [a1 a2], b as [b1 b2]. unfold Mdbx.pair_eqb. simpl.
  rewrite andb_true_iff, !bytes_eqb_true. split; [intros [-> ->] | intros Hp; inversion Hp]; auto.
Qed.

(** ** C5: [append] and the table's largest key *)

(** C5. On a table kept in key order, [append(key, value)] succeeds exactly
    when the encoded key is strictly greater than every key of the table,
    and then stores the entry last; otherwise it fails with the [Write]
    error of [MDBX_EKEYMISMATCH] and leaves the cursor as it was.  Appending
    5 to an empty table succeeds and appending 3 next fails. *)
Theorem append_requires_greater_key (T : Table) (l : list Pair) (dup : bool) (p : option nat)
  (k : Key T) (v : Value T) :
  keys_sorted l ->
  let c : Cursor RW T Mdbx.MdbxState := mkCursor (Mdbx.mkState l dup p) in
  (fst (append c k v) = Ok tt <->
     forall x, In x (map fst l) -> bytes_ltb x (key_encode T k) = true) /\
  (fst (append c k v) = Ok tt ->
     Mdbx.db (inner (snd (append c k v))) = l ++ [(key_encode T k, value_compress T v)]) /\
  (fst (append c k v) <> Ok tt ->
     append c k v = (Err (Write (to_err_code KeyMismatch)), c)) /\
  (let c0 := mdbx_cursor RW U8Table [] false in
   fst (append c0 x05 x01) = Ok tt /\
   fst (append (snd (append c0 x05 x01)) x03 x01) = Err (Write (to_err_code KeyMismatch))).
Proof.
  intros Hs c.
  assert (Hex : let c0 := mdbx_cursor RW U8Table [] false in
     fst (append c0 x05 x01) = Ok tt /\
     fst (append (snd (append c0 x05 x01)) x03 x01) = Err (Write (to_err_code KeyMismatch)))
    by (split; reflexivity).
  unfold c, append, put_with. simpl.
  destruct (Mdbx.last_entry l) as [[lk lv] |] eqn:Hl.
  - destruct (last_entry_max l (lk, lv) Hs Hl) as [Hin Hmax].
    destruct (bytes_ltb lk (key_encode T k)) eqn:Hlt; simpl.
    + split; [| split; [reflexivity | split; [congruence | exact Hex]]].
      split; [| reflexivity]. intros _ x Hx.
      apply in_map_iff in Hx as (e & <- & He).
      eapply bytes_leb_ltb_trans; [apply (Hmax e He) | exact Hlt].
    + split; [| split; [discriminate | split; [reflexivity | exact Hex]]].
      split; [discriminate |]. intros Hall.
      rewrite (Hall lk) in Hlt; [discriminate |].
      apply in_map_iff. exists (lk, lv). auto.
  - apply last_entry_none in Hl. subst l. simpl.
    split; [| split; [reflexivity | split; [congruence | exact Hex]]].
    split; [| reflexivity]. intros _ x [].
Qed.

Lemma append_requires_greater_key_witness :
  keys_sorted keys_1_to_9 /\
  (fst (append (mdbx_cursor RW U8Table keys_1_to_9 false) x0a x01) = Ok tt <->
     forall x, In x (map fst keys_1_to_9) -> bytes_ltb x [x0a] = true).
Proof.
  split.
  - unfold keys_sorted, keys_1_to_9. repeat constructor.
  - exact (proj1 (append_requires_greater_key U8Table keys_1_to_9 false None x0a x01
                    (ltac:(unfold keys_sorted, keys_1_to_9; repeat constructor)))).
Defined.

(** ** C6: [insert] against [upsert] *)

Lemma upsert_plain_db (l : list Pair) (p : option nat) (ek ev : bytes) :
  let l' := Mdbx.db (snd (Mdbx.upsert (Mdbx.mkState l false p) ek ev)) in
  In (ek, ev) l' /\
  (forall e, In e l' -> fst e = ek -> e = (ek, ev)) /\
  (forall e, fst e <> ek -> (In e l' <-> In e l)).
Proof.
  unfold Mdbx.upsert. simpl.
  destruct (Mdbx.key_present ek l) eqn:Hp; simpl.
  - apply key_present_in, in_keys in Hp as (v0 & Hv0).
    set (f := fun e : Pair => if bytes_eqb (fst e) ek then (ek, ev) else e).
    split; [| split].
    + apply in_map_iff. exists (ek, v0). unfold f. simpl. rewrite bytes_eqb_refl. auto.
    + intros e He Hk. apply in_map_iff in He as (e0 & <- & _). unfold f in *.
      destruct (bytes_eqb (fst e0) ek) eqn:E; [reflexivity |].
      apply bytes_eqb_true in Hk. congruence.
    + intros e Hk. rewrite in_map_iff. split.
      * intros (e0 & <- & He0). unfold f in *.
        destruct (bytes_eqb (fst e0) ek) eqn:E; [simpl in Hk; congruence | exact He0].
      * intros He. exists e. split; [| exact He]. unfold f.
        destruct (bytes_eqb (fst e) ek) eqn:E; [apply bytes_eqb_true in E; congruence | reflexivity].
  - split; [| split].
    + apply insert_sorted_in. left. reflexivity.
    + intros e He Hk. apply insert_sorted_in in He as [<- | He]; [reflexivity |].
      exfalso. assert (Hin : In ek (map fst l)) by (apply in_map_iff; exists e; auto).
      apply key_present_in in Hin. congruence.
    + intros e Hk. rewrite insert_sorted_in. simpl.
      split; [intros [<- | He]; [simpl in Hk; congruence | exact He] | auto].
Qed.

Lemma upsert_dupsort_db (l : list Pair) (p : option nat) (ek ev : bytes) :
  forall e, In e (Mdbx.db (snd (Mdbx.upsert (Mdbx.mkState l true p) ek ev))) <-> In e ((ek, ev) :: l).
Proof.
  intros e. unfold Mdbx.upsert. simpl.
  destruct (existsb (Mdbx.pair_eqb (ek, ev)) l) eqn:Hx; simpl.
  - apply existsb_exists in Hx as (e0 & He0 & Heq). apply pair_eqb_true in Heq. subst e0.
    split; [auto | intros [<- | He]; auto].
  - apply insert_sorted_in.
Qed.

(** C6 (amended).  On a plain table: for a present key, [insert] fails with
    the [Write] error of [MDBX_KEYEXIST] and changes nothing, while [upsert]
    succeeds and leaves the new value as the only one under the key, the
    other keys' entries unchanged; for an absent key [insert] behaves as
    [upsert], which stores the value.  On a DUPSORT table [insert] of a
    present key fails alike, while [upsert] succeeds by adding the value
    among the key's values, the stored ones kept. *)
Theorem insert_upsert_key_exists (T : Table) (l : list Pair) (p : option nat)
  (k : Key T) (v : Value T) :
  let ek := key_encode T k in
  let ev := value_compress T v in
  let c : Cursor RW T Mdbx.MdbxState := mkCursor (Mdbx.mkState l false p) in
  let l' := Mdbx.db (inner (snd (upsert c k v))) in
  (In ek (map fst l) -> insert c k v = (Err (Write (to_err_code KeyExist)), c)) /\
  (~ In ek (map fst l) -> insert c k v = upsert c k v) /\
  fst (upsert c k v) = Ok tt /\
  In (ek, ev) l' /\
  (forall e, In e l' -> fst e = ek -> e = (ek, ev)) /\
  (forall e, fst e <> ek -> (In e l' <-> In e l)) /\
  (let cd : Cursor RW T Mdbx.MdbxState := mkCursor (Mdbx.mkState l true p) in
   (In ek (map fst l) -> insert cd k v = (Err (Write (to_err_code KeyExist)), cd)) /\
   fst (upsert cd k v) = Ok tt /\
   (forall e, In e (Mdbx.db (inner (snd (upsert cd k v)))) <-> In e ((ek, ev) :: l))).
Proof.
  intros ek ev c l'.
  destruct (upsert_plain_db l p ek ev) as (H1 & H2 & H3).
  assert (Hput : forall dup,
    upsert (mkCursor (K := RW) (T := T) (Mdbx.mkState l dup p)) k v
    = (Ok tt, mkCursor (snd (Mdbx.upsert (Mdbx.mkState l dup p) ek ev)))).
  { intros dup. unfold upsert, put_with. simpl. unfold Mdbx.upsert, Mdbx.store. simpl.
    destruct dup; [destruct (existsb _ _) | destruct (Mdbx.key_present _ _)]; reflexivity. }
  assert (Hins : forall dup, In ek (map fst l) ->
    insert (mkCursor (K := RW) (T := T) (Mdbx.mkState l dup p)) k v
    = (Err (Write (to_err_code KeyExist)), mkCursor (Mdbx.mkState l dup p))).
  { intros dup Hin. apply key_present_in in Hin.
    unfold insert, put_with. simpl. fold ek. rewrite Hin. reflexivity. }
  split; [apply Hins |].
  split.
  { intros Hin. unfold insert, upsert, put_with. simpl. fold ek ev.
    destruct (Mdbx.key_present ek l) eqn:Hp; [apply key_present_in in Hp; contradiction | reflexivity]. }
  unfold l', c. rewrite (Hput false). simpl.
  split; [reflexivity |].
  split; [exact H1 |]. split; [exact H2 |]. split; [exact H3 |].
  cbv zeta. split; [apply Hins |].
  rewrite (Hput true). simpl.
  split; [reflexivity | apply upsert_dupsort_db].
Qed.

(** C6, as stated, fails on a DUPSORT table: [upsert] of a second value
    under a present key keeps the first value. *)
Lemma upsert_dupsort_keeps_old_value :
  let c : Cursor RW U8DupTable Mdbx.MdbxState := mdbx_cursor RW U8DupTable [([x05], [x01; xaa])] true in
  fst (upsert c x05 (x02, xbb)) = Ok tt /\
  Mdbx.db (inner (snd (upsert c x05 (x02, xbb)))) = [([x05], [x01; xaa]); ([x05], [x02; xbb])].
Proof. split; reflexivity. Qed.

(** ** C8: [seek_by_key_subkey] *)

(** Against an encoded sub-key of [n] bytes, a value of at least [n] bytes
    compares as its first [n] bytes do. *)
Lemma bytes_leb_prefix (sk d : bytes) :
  List.length sk <= List.length d -> bytes_leb sk d = bytes_leb sk (firstn (List.length sk) d).
Proof.
  revert d. induction sk as [| a sk IH]; intros d Hlen.
  - unfold bytes_leb, bytes_cmp. destruct d; reflexivity.
  - destruct d as [| b d]; simpl in Hlen; [lia |].
    specialize (IH d ltac:(lia)). unfold bytes_leb, bytes_cmp in *. simpl.
    destruct (byte_cmp a b); [exact IH | reflexivity | reflexivity].
Qed.

Lemma get_both_range_first (l : list Pair) (k sk : bytes) :
  (forall e, In e l -> fst e = k -> List.length sk <= List.length (snd e)) ->
  match Mdbx.find_index (fun e => bytes_eqb (fst e) k && bytes_leb sk (snd e)) l with
  | Some i => option_map (fun e => (i, snd e)) (nth_error l i)
  | None => None
  end = first_dup_at_or_after l k sk.
Proof.
  induction l as [| e l IH]; intros Hw; [reflexivity |].
  simpl.
  assert (Hp : bytes_eqb (fst e) k && bytes_leb sk (snd e)
               = bytes_eqb (fst e) k && bytes_leb sk (firstn (List.length sk) (snd e))).
  { destruct (bytes_eqb (fst e) k) eqn:E; [simpl | reflexivity].
    apply bytes_leb_prefix, Hw; [left; reflexivity | apply bytes_eqb_true; exact E]. }
  rewrite Hp.
  destruct (bytes_eqb (fst e) k && bytes_leb sk (firstn (List.length sk) (snd e))); [reflexivity |].
  rewrite <- IH by (intros e' He'; apply Hw; right; exact He').
  destruct (Mdbx.find_index _ l) as [i |]; simpl; [| reflexivity].
  destruct (nth_error l i); reflexivity.
Qed.

(** C8. When every value stored under [key] is at least as long as the
    encoded sub-key (values begin with their sub-key),
    [seek_by_key_subkey(key, subkey)] positions the cursor at the first
    value under [key] whose sub-key is at least [subkey] and returns that
    value alone, decoded; it returns [Ok(None)], the cursor unpositioned,
    when no value under [key] qualifies (in particular when [key] is
    absent). *)
Theorem seek_by_key_subkey_first_value (K : TransactionKind) (T : DupSort) (l : list Pair)
  (dup : bool) (p : option nat) (key : Key T) (sk : SubKey T) :
  (forall e, In e l -> fst e = key_encode T key ->
     List.length (subkey_encode T sk) <= List.length (snd e)) ->
  seek_by_key_subkey (mkCursor (K := K) (T := T) (Mdbx.mkState l dup p)) key sk =
    match first_dup_at_or_after l (key_encode T key) (subkey_encode T sk) with
    | Some (i, d) =>
        (match decode_one T d with Ok v => Ok (Some v) | Err err => Err err end,
         mkCursor (Mdbx.mkState l dup (Some i)))
    | None => (Ok None, mkCursor (Mdbx.mkState l dup None))
    end.
Proof.
  intros Hw.
  pose proof (get_both_range_first l (key_encode T key) (subkey_encode T sk) Hw) as Hg.
  unfold seek_by_key_subkey. simpl.
  unfold Mdbx.get_both_range, Mdbx.value_only, Mdbx.seek_first. simpl.
  destruct (Mdbx.find_index _ l) as [i |] eqn:Hf; rewrite <- Hg; [| reflexivity].
  unfold Mdbx.at_pos. simpl.
  destruct (nth_error l i) as [e |]; simpl; [| reflexivity].
  destruct (decode_one T (snd e)); reflexivity.
Qed.

Lemma seek_by_key_subkey_first_value_witness :
  (forall e, In e [([x05], [x01; xaa]); ([x05], [x03; xbb]); ([x06], [x00; xcc])] -> fst e = [x05] ->
     List.length [x02] <= List.length (snd e)) /\
  seek_by_key_subkey (mkCursor (K := RO) (T := U8DupTable)
      (Mdbx.mkState [([x05], [x01; xaa]); ([x05], [x03; xbb]); ([x06], [x00; xcc])] true None)) x05 x02
  = (Ok (Some (x03, xbb)),
     mkCursor (Mdbx.mkState [([x05], [x01; xaa]); ([x05], [x03; xbb]); ([x06], [x00; xcc])] true (Some 1))).
Proof.
  assert (Hw : forall e, In e [([x05], [x01; xaa]); ([x05], [x03; xbb]); ([x06], [x00; xcc])] ->
                 fst e = [x05] -> List.length [x02] <= List.length (snd e)).
  { intros e He _. simpl in He.
    destruct He as [<- | [<- | [<- | []]]]; simpl; lia. }
  split; [exact Hw |].
  exact (seek_by_key_subkey_first_value RO U8DupTable _ true None x05 x02 Hw).
Defined.


(** X18. [walk_back(None)] always builds a walker caching [last()]; [walk_back(Some(k))] caches [seek(k)], and fails only with [Read] of a native [set_range] failure. *)
Theorem walk_back_start_item {S} `{NativeCursor S} {K : TransactionKind} {T : Table}
  (c : Cursor K T S) (k : Key T) :
  (exists w, fst (walk_back c None) = Ok w /\ reverse_start w = transpose (fst (last c))) /\
  (forall w, fst (walk_back c (Some k)) = Ok w -> reverse_start w = transpose (fst (seek c k))) /\
  (forall err, fst (walk_back c (Some k)) = Err err ->
     exists e, fst (n_set_range (inner c) (key_encode T k)) = Err e /\ err = Read (to_err_code e)).
Proof.
  split; [| split].
  - unfold walk_back. destruct (last c) as [r c']. eexists. split; reflexivity.
  - intros w. unfold walk_back, seek, read_pair.
    destruct (n_set_range (inner c) (key_encode T k)) as [[o | e] s']; simpl; intros Hw; [| discriminate].
    injection Hw as <-. reflexivity.
  - intros err. unfold walk_back.
    destruct (n_set_range (inner c) (key_encode T k)) as [[o | e] s']; simpl; intros Hw; [discriminate |].
    injection Hw as <-. exists e. split; reflexivity.
Qed.

(** X19. [walk_range] panics only on an [Excluded] start bound, and a walker it returns records the given bounds and caches [seek(k)] for an [Included(k)] start, [first()] for an unbounded one. *)
Theorem walk_range_walker {S} `{NativeCursor S} {K : TransactionKind} {T : Table}
  (c : Cursor K T S) (range : Bound (Key T) * Bound (Key T)) :
  (forall msg, walk_range c range = Panic msg -> exists k, fst range = Excluded k) /\
  (forall w c', walk_range c range = Ret (Ok w, c') ->
     range_start_bound w = fst range /\ range_end_bound w = snd range /\
     range_start w = match fst range with
                     | Included k => transpose (fst (seek c k))
                     | _ => transpose (fst (first c))
                     end).
Proof.
  destruct range as [sb eb]. split.
  - intros msg. unfold walk_range. simpl.
    destruct sb as [k | k |]; [| eauto | discriminate].
    destruct (match eb with Included e | Excluded e => key_lt T e k | Unbounded => false end);
      intros Hw; discriminate Hw.
  - intros w c'. unfold walk_range. simpl.
    destruct sb as [k | k |]; [| discriminate |].
    + destruct (match eb with Included e | Excluded e => key_lt T e k | Unbounded => false end);
        [intros Hw; inversion Hw |].
      unfold seek, read_pair.
      destruct (n_set_range (inner c) (key_encode T k)) as [[o | e] s']; simpl; intros Hw;
        inversion Hw; subst; simpl; (split; [reflexivity | split; [reflexivity |]]);
        destruct o as [kv |]; simpl; [destruct (decoder T kv) |]; reflexivity.
    + unfold first, read_pair.
      destruct (n_first (inner c)) as [[o | e] s']; simpl; intros Hw;
        inversion Hw; subst; simpl; (split; [reflexivity | split; [reflexivity |]]);
        destruct o as [kv |]; simpl; [destruct (decoder T kv) |]; reflexivity.
Qed.

(** X20. [walk_dup(None, None)] never fails; any construction error of [walk_dup] is a [Read] error, except a [Decode] error passed on from [first()] when only a sub-key is given. *)
Theorem walk_dup_error_kinds {S} `{NativeCursor S} {K : TransactionKind} {T : DupSort}
  (c : Cursor K T S) (key : option (Key T)) (subkey : option (SubKey T)) :
  (exists w, fst (walk_dup c None None) = Ok w) /\
  (forall err, fst (walk_dup c key subkey) = Err err ->
     (exists code, err = Read code) \/ (key = None /\ subkey <> None /\ err = Decode)).
Proof.
  split.
  - unfold walk_dup. destruct (first c). eexists. reflexivity.
  - intros err. unfold walk_dup, dup_start_of.
    destruct key as [k |], subkey as [sk |].
    + destruct (n_get_both_range _ _ _) as [[o | e] s']; simpl; intros Hw; [discriminate |].
      injection Hw as <-. left. eauto.
    + destruct (n_set _ _) as [[o | e] s']; simpl; intros Hw; [discriminate |].
      injection Hw as <-. left. eauto.
    + destruct (first c) as [[[[k v] |] | e] c1] eqn:Hf.
      * destruct (n_get_both_range _ _ _) as [[o | e] s']; simpl; intros Hw; [discriminate |].
        injection Hw as <-. left. eauto.
      * intros Hw. discriminate Hw.
      * intros Hw. injection Hw as <-.
        unfold first, read_pair in Hf. injection Hf as Hf _.
        destruct (proj2 (proj2 (proj2 (proj2 (decode_outcomes T _)))) e Hf) as [-> | Hr];
          [right; repeat split; discriminate | left; exact Hr].
    + destruct (first c). intros Hw. discriminate Hw.
Qed.

(** X21. When the native [first] fails, [walk_dup(None, Some(subkey))] fails at construction, while [walk_dup(None, None)] succeeds and caches the same [Read] error as its first item. *)
Theorem walk_dup_first_failure {S} `{NativeCursor S} {K : TransactionKind} {T : DupSort}
  (c : Cursor K T S) (sk : SubKey T) (e : MDBXError) :
  fst (n_first (inner c)) = Err e ->
  fst (walk_dup c None (Some sk)) = Err (Read (to_err_code e)) /\
  (exists w, fst (walk_dup c None None) = Ok w /\ dup_start w = Some (Err (Read (to_err_code e)))).
Proof.
  intros Hf. unfold walk_dup, first, read_pair.
  destruct (n_first (inner c)) as [r s']. simpl in Hf. subst r. simpl.
  split; [reflexivity |]. eexists. split; reflexivity.
Qed.

(** X22. For a key whose encoding decodes back, [walk_dup(Some(key), Some(subkey))] caches the value [seek_by_key_subkey(key, subkey)] returns, paired with the key; absence and native read failures agree too. *)
Theorem walk_dup_matches_seek_by_key_subkey {S} `{NativeCursor S} {K : TransactionKind} {T : DupSort}
  (c : Cursor K T S) (k : Key T) (sk : SubKey T) :
  key_decode T (key_encode T k) = Some k ->
  (forall v, fst (seek_by_key_subkey c k sk) = Ok (Some v) <->
     exists w, fst (walk_dup c (Some k) (Some sk)) = Ok w /\ dup_start w = Some (Ok (k, v))) /\
  (fst (seek_by_key_subkey c k sk) = Ok None <->
     exists w, fst (walk_dup c (Some k) (Some sk)) = Ok w /\ dup_start w = None) /\
  (forall code, fst (seek_by_key_subkey c k sk) = Err (Read code) <->
     fst (walk_dup c (Some k) (Some sk)) = Err (Read code)).
Proof.
  intros Hk. unfold seek_by_key_subkey, walk_dup, dup_start_of.
  destruct (n_get_both_range (inner c) (key_encode T k) (subkey_encode T sk)) as [[[d |] | e] s']; simpl.
  - unfold decode_one, decoder. simpl. rewrite Hk.
    destruct (value_decompress T d) as [x |]; simpl.
    + split; [| split]; [intros v; split | split | intros code; split]; intros Hx.
      * injection Hx as <-. eexists. split; reflexivity.
      * destruct Hx as (w & Hw & Hs). injection Hw as <-. simpl in Hs. congruence.
      * discriminate.
      * destruct Hx as (w & Hw & Hs). injection Hw as <-. discriminate.
      * discriminate.
      * discriminate.
    + split; [| split]; [intros v; split | split | intros code; split]; intros Hx.
      * discriminate.
      * destruct Hx as (w & Hw & Hs). injection Hw as <-. discriminate.
      * discriminate.
      * destruct Hx as (w & Hw & Hs). injection Hw as <-. discriminate.
      * discriminate.
      * discriminate.
  - split; [| split]; [intros v; split | split | intros code; split]; intros Hx.
    + discriminate.
    + destruct Hx as (w & Hw & Hs). injection Hw as <-. discriminate.
    + eexists. split; reflexivity.
    + reflexivity.
    + discriminate.
    + discriminate.
  - split; [| split]; [intros v; split | split | intros code; split]; intros Hx.
    + discriminate.
    + destruct Hx as (w & Hw & Hs). discriminate.
    + discriminate.
    + destruct Hx as (w & Hw & Hs). discriminate.
    + congruence.
    + congruence.
Qed.

(** X23. [next_dup_val] moves the cursor as [next_dup] does, returns the value of the pair [next_dup] returns, and agrees with it on absence and on native read failures. *)
Theorem next_dup_val_agrees {S} `{NativeCursor S} {K : TransactionKind} {T : DupSort}
  (c : Cursor K T S) :
  snd (next_dup_val c) = snd (next_dup c) /\
  (forall k v, fst (next_dup c) = Ok (Some (k, v)) -> fst (next_dup_val c) = Ok (Some v)) /\
  (fst (next_dup c) = Ok None <-> fst (next_dup_val c) = Ok None) /\
  (forall code, fst (next_dup c) = Err (Read code) <-> fst (next_dup_val c) = Err (Read code)).
Proof.
  unfold next_dup, next_dup_val, read_pair.
  destruct (n_next_dup (inner c)) as [[[kv |] | e] s']; simpl.
  - unfold decoder, decode_value.
    destruct (key_decode T (fst kv)) as [k0 |], (value_decompress T (snd kv)) as [v0 |]; simpl.
    all: split; [reflexivity | split; [| split]]; [intros k v Hx | split | intros code; split]; intros; congruence.
  - split; [reflexivity | split; [| split]]; [intros k v Hx | split | intros code; split]; intros; congruence.
  - split; [reflexivity | split; [| split]]; [intros k v Hx | split | intros code; split]; intros; congruence.
Qed.

(** X24. On a plain table, after [upsert(k, v)] succeeds, [seek_exact(k)] returns [(k, v)], for key and value codecs that round-trip. *)
Theorem upsert_then_seek_exact (T : Table) (l : list Pair) (p : option nat) (k : Key T) (v : Value T) :
  key_decode T (key_encode T k) = Some k ->
  value_decompress T (value_compress T v) = Some v ->
  let c : Cursor RW T Mdbx.MdbxState := mkCursor (Mdbx.mkState l false p) in
  fst (upsert c k v) = Ok tt /\ fst (seek_exact (snd (upsert c k v)) k) = Ok (Some (k, v)).
Proof.
  intros Hk Hv c.
  destruct (upsert_plain_db l p (key_encode T k) (value_compress T v)) as (Hin & Honly & _).
  unfold upsert, put_with. simpl.
  destruct (Mdbx.upsert (Mdbx.mkState l false p) (key_encode T k) (value_compress T v)) as [r st'] eqn:Hu.
  assert (Hr : r = Ok tt).
  { unfold Mdbx.upsert in Hu. simpl in Hu.
    destruct (Mdbx.key_present _ l); unfold Mdbx.store in Hu; injection Hu as <- _; reflexivity. }
  subst r. split; [reflexivity |].
  simpl in Hin, Honly. set (l' := Mdbx.db st') in *.
  unfold seek_exact, read_pair. simpl. unfold Mdbx.set_key, Mdbx.seek_first.
  pose proof (find_index_nth (fun e : Pair => bytes_eqb (fst e) (key_encode T k)) l') as Hf.
  fold l'.
  destruct (find (fun e : Pair => bytes_eqb (fst e) (key_encode T k)) l') as [e |] eqn:Hfind.
  - apply find_some in Hfind as [He Hek]. apply bytes_eqb_true in Hek.
    rewrite (Honly e He Hek) in Hf.
    destruct (Mdbx.find_index _ l') as [i |]; [| discriminate].
    unfold Mdbx.at_pos. fold l'. rewrite Hf. simpl. unfold decoder. simpl. rewrite Hk, Hv. reflexivity.
  - exfalso. apply (find_none _ _ Hfind) in Hin. simpl in Hin. rewrite bytes_eqb_refl in Hin. discriminate.
Qed.


Lemma walk_back_start_item_witness :
  fst (walk_back (mdbx_cursor RO U8Table keys_1_to_9 false) (Some x04))
    = Ok (mkReverseWalker (K := RO) (T := U8Table) (mkCursor (Mdbx.mkState keys_1_to_9 false (Some 2))) (Some (Ok (x05, x50)))) /\
  reverse_start (mkReverseWalker (K := RO) (T := U8Table) (mkCursor (Mdbx.mkState keys_1_to_9 false (Some 2))) (Some (Ok (x05, x50))))
    = transpose (fst (seek (mdbx_cursor RO U8Table keys_1_to_9 false) x04)) /\
  fst (walk_back (mkCursor (K := RO) (T := U8Table) (Faulty.mkFaulty Corrupted)) (Some x04)) = Err (Read (to_err_code Corrupted)) /\
  exists e, fst (n_set_range (Faulty.mkFaulty Corrupted) [x04]) = Err e /\ Read (to_err_code Corrupted) = Read (to_err_code e).
Proof.
  assert (H1 : fst (walk_back (mdbx_cursor RO U8Table keys_1_to_9 false) (Some x04))
    = Ok (mkReverseWalker (K := RO) (T := U8Table) (mkCursor (Mdbx.mkState keys_1_to_9 false (Some 2))) (Some (Ok (x05, x50))))) by reflexivity.
  assert (H2 : fst (walk_back (mkCursor (K := RO) (T := U8Table) (Faulty.mkFaulty Corrupted)) (Some x04))
    = Err (Read (to_err_code Corrupted))) by reflexivity.
  split; [exact H1 | split; [| split; [exact H2 |]]].
  - exact (proj1 (proj2 (walk_back_start_item (mdbx_cursor RO U8Table keys_1_to_9 false) x04)) _ H1).
  - exact (proj2 (proj2 (walk_back_start_item (mkCursor (K := RO) (T := U8Table) (Faulty.mkFaulty Corrupted)) x04)) _ H2).
Defined.

Lemma walk_range_walker_witness :
  walk_range (mdbx_cursor RO U8Table keys_1_to_9 false) (Included x04, Excluded x09)
    = Ret (Ok (mkRangeWalker (K := RO) (T := U8Table) (mkCursor (Mdbx.mkState keys_1_to_9 false (Some 2))) (Some (Ok (x05, x50)))
                 (Included x04) (Excluded x09)),
           mkCursor (Mdbx.mkState keys_1_to_9 false (Some 2))) /\
  range_start (mkRangeWalker (K := RO) (T := U8Table) (mkCursor (Mdbx.mkState keys_1_to_9 false (Some 2))) (Some (Ok (x05, x50)))
                 (Included x04) (Excluded x09))
    = transpose (fst (seek (mdbx_cursor RO U8Table keys_1_to_9 false) x04)).
Proof.
  assert (Hw : walk_range (mdbx_cursor RO U8Table keys_1_to_9 false) (Included x04, Excluded x09)
    = Ret (Ok (mkRangeWalker (K := RO) (T := U8Table) (mkCursor (Mdbx.mkState keys_1_to_9 false (Some 2))) (Some (Ok (x05, x50)))
                 (Included x04) (Excluded x09)),
           mkCursor (Mdbx.mkState keys_1_to_9 false (Some 2)))) by reflexivity.
  split; [exact Hw |].
  exact (proj2 (proj2 (proj2 (walk_range_walker (mdbx_cursor RO U8Table keys_1_to_9 false) (Included x04, Excluded x09)) _ _ Hw))).
Defined.

Lemma walk_dup_error_kinds_witness :
  fst (walk_dup (mdbx_cursor RO U8DupTable [([x05], [x01]); ([x06], [x00; xcc])] true) None (Some x02)) = Err Decode /\
  ((exists code, Decode = Read code) \/ (@None (Key U8DupTable) = None /\ Some x02 <> None /\ Decode = Decode)).
Proof.
  assert (Hw : fst (walk_dup (mdbx_cursor RO U8DupTable [([x05], [x01]); ([x06], [x00; xcc])] true) None (Some x02))
    = Err Decode) by reflexivity.
  split; [exact Hw |].
  exact (proj2 (walk_dup_error_kinds (mdbx_cursor RO U8DupTable [([x05], [x01]); ([x06], [x00; xcc])] true) None (Some x02)) _ Hw).
Defined.

Lemma walk_dup_first_failure_witness :
  fst (n_first (Faulty.mkFaulty Corrupted)) = @Err (option Pair) _ Corrupted /\
  fst (walk_dup (mkCursor (K := RO) (T := U8DupTable) (Faulty.mkFaulty Corrupted)) None (Some x02))
    = Err (Read (to_err_code Corrupted)).
Proof.
  assert (Hf : fst (n_first (Faulty.mkFaulty Corrupted)) = @Err (option Pair) _ Corrupted) by reflexivity.
  split; [exact Hf |].
  exact (proj1 (walk_dup_first_failure (mkCursor (K := RO) (T := U8DupTable) (Faulty.mkFaulty Corrupted)) x02 Corrupted Hf)).
Defined.

Lemma walk_dup_matches_seek_by_key_subkey_witness :
  key_decode U8DupTable (key_encode U8DupTable x05) = Some x05 /\
  exists w, fst (walk_dup (mdbx_cursor RO U8DupTable [([x05], [x01; xaa]); ([x05], [x03; xbb]); ([x06], [x00; xcc])] true)
                 (Some x05) (Some x02)) = Ok w /\ dup_start w = Some (Ok (x05, (x03, xbb))).
Proof.
  assert (Hk : key_decode U8DupTable (key_encode U8DupTable x05) = Some x05) by reflexivity.
  split; [exact Hk |].
  apply (proj1 (walk_dup_matches_seek_by_key_subkey
    (mdbx_cursor RO U8DupTable [([x05], [x01; xaa]); ([x05], [x03; xbb]); ([x06], [x00; xcc])] true) x05 x02 Hk)).
  reflexivity.
Defined.

Lemma next_dup_val_agrees_witness :
  fst (next_dup (mkCursor (K := RO) (T := U8DupTable) (Mdbx.mkState [([x05], [x01; xaa]); ([x05], [x03; xbb])] true (Some 0))))
    = Ok (Some (x05, (x03, xbb))) /\
  fst (next_dup_val (mkCursor (K := RO) (T := U8DupTable) (Mdbx.mkState [([x05], [x01; xaa]); ([x05], [x03; xbb])] true (Some 0))))
    = Ok (Some (x03, xbb)).
Proof.
  assert (Hn : fst (next_dup (mkCursor (K := RO) (T := U8DupTable) (Mdbx.mkState [([x05], [x01; xaa]); ([x05], [x03; xbb])] true (Some 0))))
    = Ok (Some (x05, (x03, xbb)))) by reflexivity.
  split; [exact Hn |].
  exact (proj1 (proj2 (next_dup_val_agrees (mkCursor (K := RO) (T := U8DupTable)
    (Mdbx.mkState [([x05], [x01; xaa]); ([x05], [x03; xbb])] true (Some 0))))) _ _ Hn).
Defined.

Lemma upsert_then_seek_exact_witness :
  key_decode U8Table (key_encode U8Table x03) = Some x03 /\
  value_decompress U8Table (value_compress U8Table xaa) = Some xaa /\
  fst (seek_exact (snd (upsert (mkCursor (T := U8Table) (Mdbx.mkState keys_1_to_9 false None)) x03 xaa)) x03)
    = Ok (Some (x03, xaa)).
Proof.
  split; [reflexivity | split; [reflexivity |]].
  exact (proj2 (upsert_then_seek_exact U8Table keys_1_to_9 None x03 xaa eq_refl eq_refl)).
Defined.

(** ** Properties of the [eth] wire message types *)

Import EthWire.

Lemma u8_to_N (n : N) : Byte.to_N (Rlp.u8 n) = (n mod 256)%N.
Proof.
  unfold Rlp.u8. destruct (Byte.of_N (n mod 256)) eqn:E.
  - apply Byte.to_of_N in E. exact E.
  - apply Byte.of_N_None_iff in E. pose proof (N.mod_lt n 256). lia.
Qed.

Lemma to_N_x00 (b : Byte.byte) : Byte.to_N b = 0%N -> b = x00.
Proof.
  intros H. pose proof (Byte.of_to_N b) as E. rewrite H in E. simpl in E. congruence.
Qed.

Lemma from_be_acc (l : bytes) (acc : N) :
  fold_left (fun acc b => (acc * 256 + Byte.to_N b)%N) l acc
  = (acc * 256 ^ N.of_nat (List.length l) + Rlp.from_be_bytes l)%N.
Proof.
  unfold Rlp.from_be_bytes. revert acc. induction l as [| b l IH]; intros acc.
  - simpl. lia.
  - simpl List.length. simpl fold_left.
    rewrite (IH (acc * 256 + Byte.to_N b)%N), (IH (Byte.to_N b)).
    rewrite Nat2N.inj_succ, N.pow_succ_r'. lia.
Qed.

Lemma from_be_cons (b : Byte.byte) (l : bytes) :
  Rlp.from_be_bytes (b :: l) = (Byte.to_N b * 256 ^ N.of_nat (List.length l) + Rlp.from_be_bytes l)%N.
Proof.
  unfold Rlp.from_be_bytes at 1. simpl fold_left. rewrite from_be_acc. lia.
Qed.

Lemma from_be_snoc (l : bytes) (b : Byte.byte) :
  Rlp.from_be_bytes (l ++ [b]) = (Rlp.from_be_bytes l * 256 + Byte.to_N b)%N.
Proof. unfold Rlp.from_be_bytes. rewrite fold_left_app. reflexivity. Qed.

Lemma from_be_repeat_x00 (n : nat) (l : bytes) :
  Rlp.from_be_bytes (repeat x00 n ++ l) = Rlp.from_be_bytes l.
Proof.
  induction n as [| n IH]; [reflexivity |].
  simpl (repeat x00 (S n) ++ l). rewrite from_be_cons, IH. reflexivity.
Qed.

Lemma zeroless_cons (b : Byte.byte) (l : bytes) :
  Rlp.zeroless_view (b :: l) = if Byte.eqb b x00 then Rlp.zeroless_view l else b :: l.
Proof. destruct b; reflexivity. Qed.

Lemma from_be_zeroless (l : bytes) : Rlp.from_be_bytes (Rlp.zeroless_view l) = Rlp.from_be_bytes l.
Proof.
  induction l as [| b l IH]; [reflexivity |].
  rewrite zeroless_cons. destruct (Byte.eqb b x00) eqn:E; [| reflexivity].
  apply Byte.byte_dec_bl in E. subst b. rewrite IH, from_be_cons. reflexivity.
Qed.

Lemma zeroless_head (l : bytes) :
  match Rlp.zeroless_view l with x00 :: _ => False | _ => True end.
Proof.
  induction l as [| b l IH]; [exact I |].
  rewrite zeroless_cons. destruct (Byte.eqb b x00) eqn:E; [exact IH |].
  apply Byte.eqb_false in E. destruct b; try exact I. congruence.
Qed.

Lemma zeroless_length (l : bytes) : List.length (Rlp.zeroless_view l) <= List.length l.
Proof.
  induction l as [| b l IH]; [reflexivity |].
  rewrite zeroless_cons. destruct (Byte.eqb b x00); simpl; lia.
Qed.

Lemma zeroless_app (l m : bytes) :
  Rlp.zeroless_view (l ++ m) =
  match Rlp.zeroless_view l with [] => Rlp.zeroless_view m | z => z ++ m end.
Proof.
  induction l as [| b l IH]; [reflexivity |].
  simpl (_ ++ _). rewrite !zeroless_cons. destruct (Byte.eqb b x00); [exact IH | reflexivity].
Qed.

Lemma zeroless_nil_iff (l : bytes) : Rlp.zeroless_view l = [] <-> Rlp.from_be_bytes l = 0%N.
Proof.
  rewrite <- from_be_zeroless. pose proof (zeroless_head l) as Hh.
  destruct (Rlp.zeroless_view l) as [| b m]; [split; reflexivity |].
  split; [discriminate |]. rewrite from_be_cons. intros H.
  assert (Byte.to_N b = 0%N) as Hb.
  { assert (256 ^ N.of_nat (List.length m) <> 0)%N by (apply N.pow_nonzero; lia).
    apply N.eq_add_0 in H as [H1 _]. apply N.mul_eq_0 in H1 as [H1 | H1]; [exact H1 | contradiction]. }
  apply to_N_x00 in Hb. subst b. contradiction.
Qed.

Lemma to_be_bytes_length (w : nat) (n : N) : List.length (Rlp.to_be_bytes w n) = w.
Proof.
  revert n. induction w as [| w IH]; intros n; [reflexivity |].
  simpl. rewrite length_app, IH. simpl. lia.
Qed.

Lemma from_be_to_be (w : nat) (n : N) :
  Rlp.from_be_bytes (Rlp.to_be_bytes w n) = (n mod 256 ^ N.of_nat w)%N.
Proof.
  revert n. induction w as [| w IH]; intros n.
  - simpl. rewrite N.mod_1_r. reflexivity.
  - simpl Rlp.to_be_bytes. rewrite from_be_snoc, IH, u8_to_N.
    rewrite Nat2N.inj_succ, N.pow_succ_r', N.Div0.mod_mul_r. lia.
Qed.

Lemma size_nat_div2 (n : N) : N.size_nat (N.div2 n) = N.size_nat n - 1.
Proof. destruct n as [| [p | p |]]; simpl; lia. Qed.

Lemma size_nat_div256 (n : N) : N.size_nat (n / 256) = N.size_nat n - 8.
Proof.
  replace (n / 256)%N with (N.div2 (N.div2 (N.div2 (N.div2 (N.div2 (N.div2 (N.div2 (N.div2 n)))))))).
  - rewrite !size_nat_div2. lia.
  - rewrite !N.div2_div, !N.Div0.div_div. reflexivity.
Qed.

Lemma size_nat_pos (n : N) : n <> 0%N -> 1 <= N.size_nat n.
Proof. destruct n as [| p]; [congruence |]. intros _. destruct p; simpl; lia. Qed.

(** The number of significant bytes of [n] ([zeroless_view] of its
    big-endian bytes) is its bit size rounded up to bytes. *)
Lemma zeroless_to_be_length (w : nat) (n : N) :
  (n < 256 ^ N.of_nat w)%N ->
  List.length (Rlp.zeroless_view (Rlp.to_be_bytes w n)) = (N.size_nat n + 7) / 8
  /\ N.size_nat n <= 8 * w.
Proof.
  revert n. induction w as [| w IH]; intros n Hn.
  - simpl in Hn. assert (n = 0%N) by lia. subst n. split; reflexivity.
  - assert (Hd : (n / 256 < 256 ^ N.of_nat w)%N).
    { apply N.Div0.div_lt_upper_bound. rewrite Nat2N.inj_succ, N.pow_succ_r' in Hn. exact Hn. }
    destruct (IH (n / 256)%N Hd) as [IHl IHs].
    pose proof (size_nat_div256 n) as Hs.
    simpl Rlp.to_be_bytes. rewrite zeroless_app.
    destruct (Rlp.zeroless_view (Rlp.to_be_bytes w (n / 256))) as [| z zs] eqn:Ez.
    + apply zeroless_nil_iff in Ez. rewrite from_be_to_be, N.mod_small in Ez by exact Hd.
      assert (Hlt : (n < 256)%N).
      { destruct (N.lt_ge_cases n 256) as [? | Hge]; [assumption |].
        pose proof (N.Div0.div_le_mono 256 n 256 Hge) as H. rewrite N.div_same in H by lia. lia. }
      rewrite Ez in Hs. simpl in Hs.
      rewrite zeroless_cons. simpl Rlp.zeroless_view.
      destruct (N.eq_dec n 0) as [-> | Hn0]; [split; simpl; [reflexivity | lia] |].
      assert (Hu : Byte.eqb (Rlp.u8 n) x00 = false).
      { destruct (Byte.eqb (Rlp.u8 n) x00) eqn:E; [| reflexivity].
        apply Byte.byte_dec_bl in E. apply (f_equal Byte.to_N) in E.
        rewrite u8_to_N, N.mod_small in E by exact Hlt. simpl in E. contradiction. }
      rewrite Hu. pose proof (size_nat_pos n Hn0).
      split; [| lia].
      assert (N.size_nat n <= 8) by lia.
      destruct (N.size_nat n) as [| [| [| [| [| [| [| [| [| s]]]]]]]]]; simpl; lia.
    + assert (Hnz : (n / 256)%N <> 0%N).
      { intros H0. rewrite H0 in Ez.
        assert (Rlp.zeroless_view (Rlp.to_be_bytes w 0) = []) as E0.
        { apply zeroless_nil_iff. rewrite from_be_to_be. apply N.Div0.mod_0_l. }
        congruence. }
      pose proof (size_nat_pos _ Hnz) as Hp.
      rewrite length_app, IHl, Hs. simpl List.length.
      rewrite Hs in IHs, Hp. split; [| lia].
      replace (N.size_nat n + 7) with ((N.size_nat n - 8 + 7) + 1 * 8) by lia.
      rewrite Nat.div_add by lia. lia.
Qed.

Lemma leading_zeros_bytes (n : N) :
  N.size_nat n <= 64 -> 1 + 8 - Rlp.leading_zeros n / 8 = 1 + (N.size_nat n + 7) / 8.
Proof.
  unfold Rlp.leading_zeros. generalize (N.size_nat n). intros s Hs.
  do 65 (destruct s as [| s]; [reflexivity |]). lia.
Qed.

(** The significant big-endian bytes of a 64-bit integer. *)
Lemma be8_facts (n : N) :
  (n < 2 ^ 64)%N ->
  let be := Rlp.zeroless_view (Rlp.to_be_bytes 8 n) in
  Rlp.from_be_bytes be = n
  /\ List.length be = (N.size_nat n + 7) / 8
  /\ N.size_nat n <= 64
  /\ List.length be <= 8
  /\ match be with x00 :: _ => False | _ => True end.
Proof.
  intros Hn be. assert (Hn' : (n < 256 ^ N.of_nat 8)%N) by exact Hn.
  destruct (zeroless_to_be_length 8 n Hn') as [Hl Hs].
  pose proof (zeroless_length (Rlp.to_be_bytes 8 n)) as Hle. rewrite to_be_bytes_length in Hle.
  split; [| split; [exact Hl | split; [lia | split; [exact Hle | apply zeroless_head]]]].
  unfold be. rewrite from_be_zeroless, from_be_to_be. apply N.mod_small. exact Hn'.
Qed.

Lemma static_left_pad_ok (l : bytes) :
  List.length l <= 8 -> match l with x00 :: _ => False | _ => True end ->
  Rlp.static_left_pad 8 l = Some (repeat x00 (8 - List.length l) ++ l).
Proof.
  intros Hl Hh. unfold Rlp.static_left_pad.
  destruct (Nat.ltb_spec 8 (List.length l)) as [Hlt | _]; [lia |].
  destruct l as [| b l]; [reflexivity |]. destruct b; first [contradiction | reflexivity].
Qed.

Lemma firstn_app_length (l m : bytes) : firstn (List.length l) (l ++ m) = l.
Proof. rewrite firstn_app, Nat.sub_diag, firstn_all. simpl. apply app_nil_r. Qed.

Lemma skipn_app_length (l m : bytes) : skipn (List.length l) (l ++ m) = m.
Proof. rewrite skipn_app, Nat.sub_diag, skipn_all. reflexivity. Qed.

Ltac nlia := repeat (rewrite Nat2N.inj_succ in * || rewrite Nat2N.inj_add in *); lia.

Ltac ltb_cases :=
  repeat (cbn [Rlp.payload_length Rlp.is_list] in *;
    match goal with
    | |- context [(?a <? ?b)%N] => destruct (N.ltb_spec a b); try nlia
    | |- context [(?a =? ?b)%N] => destruct (N.eqb_spec a b); try nlia
    | |- context [Nat.ltb ?a ?b] => destruct (Nat.ltb_spec a b); try lia
    end).

Lemma header_list_roundtrip (p : N) (rest : bytes) :
  (p < 2 ^ 64)%N -> (p <= N.of_nat (List.length rest))%N ->
  Rlp.header_decode (Rlp.header_encode (Rlp.mkHeader true p) ++ rest) = Ok (Rlp.mkHeader true p, rest).
Proof.
  intros Hp Hr. unfold Rlp.header_encode. simpl Rlp.is_list. simpl Rlp.payload_length.
  destruct (N.ltb_spec p 56) as [Hs | Hs].
  - cbn [app]. unfold Rlp.header_decode.
    rewrite u8_to_N, N.mod_small by (unfold Rlp.EMPTY_LIST_CODE; lia).
    unfold Rlp.EMPTY_LIST_CODE. cbv zeta. ltb_cases.
    replace (192 + p - 192)%N with p by lia. reflexivity.
  - destruct (be8_facts p Hp) as (Hv & Hl & Hsz & Hle & Hh).
    set (be := Rlp.zeroless_view (Rlp.to_be_bytes 8 p)) in *. clearbody be.
    assert (Hk : 1 <= List.length be).
    { destruct be as [| b be']; [unfold Rlp.from_be_bytes in Hv; simpl in Hv; lia | simpl; lia]. }
    cbv zeta. cbn [app]. unfold Rlp.header_decode. cbv beta iota zeta.
    rewrite u8_to_N, N.mod_small by lia.
    ltb_cases.
    replace (N.to_nat (247 + N.of_nat (List.length be) - 247)) with (List.length be) by lia.
    unfold Rlp.long_header. rewrite length_app. ltb_cases.
    rewrite firstn_app_length, static_left_pad_ok by assumption.
    rewrite from_be_repeat_x00, Hv, skipn_app_length. ltb_cases. reflexivity.
Qed.

Lemma u64_roundtrip (v : N) (rest : bytes) :
  (v < 2 ^ 64)%N -> Rlp.u64_decode (Rlp.u64_encode v ++ rest) = Ok (v, rest).
Proof.
  intros Hv. unfold Rlp.u64_encode, Rlp.EMPTY_STRING_CODE.
  destruct (N.eqb_spec v 0) as [-> | Hv0].
  { unfold Rlp.u64_decode, bind. cbn [app]. unfold Rlp.header_decode. cbv beta iota zeta.
    assert (E : Byte.to_N (Rlp.u8 128) = 128%N) by reflexivity. rewrite E.
    ltb_cases. reflexivity. }
  destruct (N.ltb_spec v 128) as [Hs | Hs].
  - assert (Hb : Byte.to_N (Rlp.u8 v) = v) by (rewrite u8_to_N; apply N.mod_small; lia).
    unfold Rlp.u64_decode, bind. cbn [app]. unfold Rlp.header_decode. cbv beta iota zeta.
    rewrite Hb. ltb_cases.
    all: cbn [List.length] in *; rewrite ?Nat2N.inj_succ in *; try lia.
    change (N.to_nat 1) with 1. cbn [firstn skipn].
    assert (Hp : Rlp.static_left_pad 8 [Rlp.u8 v] = Some (repeat x00 7 ++ [Rlp.u8 v])).
    { apply static_left_pad_ok; [simpl; lia |].
      destruct (Rlp.u8 v); try exact I. simpl in Hb. lia. }
    rewrite Hp, from_be_repeat_x00. unfold Rlp.from_be_bytes. cbn [fold_left]. rewrite Hb. reflexivity.
  - destruct (be8_facts v Hv) as (Hval & Hl & Hsz & Hle & Hh).
    set (be := Rlp.zeroless_view (Rlp.to_be_bytes 8 v)) in *. clearbody be.
    assert (Hk : 1 <= List.length be).
    { destruct be as [| b be']; [unfold Rlp.from_be_bytes in Hval; simpl in Hval; lia | simpl; lia]. }
    unfold Rlp.u64_decode, bind. cbv zeta. cbn [app]. unfold Rlp.header_decode. cbv beta iota zeta.
    rewrite u8_to_N, N.mod_small by lia.
    replace (128 + N.of_nat (List.length be) - 128)%N with (N.of_nat (List.length be)) by lia.
    destruct (Nat.eq_dec (List.length be) 1) as [H1 | H1].
    + (* a one-byte big-endian value: it is at least 128 *)
      destruct be as [| b [| b' be']]; cbn [List.length] in H1; try lia.
      unfold Rlp.from_be_bytes in Hval. cbn [fold_left] in Hval.
      cbn [app List.length]. ltb_cases.
      all: cbn [List.length] in *; rewrite ?Nat2N.inj_succ in *; try lia.
      replace (N.to_nat (N.succ (N.of_nat 0))) with 1 by reflexivity. cbn [firstn skipn].
      rewrite static_left_pad_ok by (exact Hle || exact Hh).
      rewrite from_be_repeat_x00. unfold Rlp.from_be_bytes in *. cbn [fold_left] in *.
      f_equal. f_equal. lia.
    + ltb_cases. all: rewrite ?length_app in *; try nlia.
      rewrite Nat2N.id, firstn_app_length, static_left_pad_ok by assumption.
      rewrite from_be_repeat_x00, Hval, skipn_app_length. reflexivity.
Qed.


Lemma u64_length_encode (v : N) :
  (v < 2 ^ 64)%N -> Rlp.u64_length v = List.length (Rlp.u64_encode v).
Proof.
  intros Hv. unfold Rlp.u64_length, Rlp.u64_encode, Rlp.EMPTY_STRING_CODE.
  destruct (N.eqb_spec v 0) as [-> | Hv0]; [reflexivity |].
  destruct (N.ltb_spec v 128) as [Hs | Hs]; [reflexivity |].
  destruct (be8_facts v Hv) as (_ & Hl & Hsz & _).
  cbn [List.length]. rewrite Hl. apply leading_zeros_bytes. exact Hsz.
Qed.

Lemma length_of_length_encode (b : bool) (p : N) :
  (p < 2 ^ 64)%N -> Rlp.length_of_length p = List.length (Rlp.header_encode (Rlp.mkHeader b p)).
Proof.
  intros Hp. unfold Rlp.length_of_length, Rlp.header_encode. cbn [Rlp.payload_length Rlp.is_list].
  destruct (N.ltb_spec p 56) as [Hs | Hs]; [reflexivity |].
  destruct (be8_facts p Hp) as (_ & Hl & Hsz & _).
  cbn [List.length]. rewrite Hl. apply leading_zeros_bytes. exact Hsz.
Qed.

Section RequestPairProps.
Context {T : Type} `{Encodable T} `{Decodable T}.

(** X4. [RequestPair::length] is the number of bytes [RequestPair::encode] writes, when the request id fits a [u64], the message's own [length] is its encoded size, and the payload length fits a [u64]. *)
Lemma request_pair_length_is_encoded_size (rp : RequestPair.t T) :
  (RequestPair.request_id rp < 2 ^ 64)%N ->
  rlp_length (RequestPair.message rp) = List.length (rlp_encode (RequestPair.message rp)) ->
  (N.of_nat (Rlp.u64_length (RequestPair.request_id rp) + rlp_length (RequestPair.message rp)) < 2 ^ 64)%N ->
  RequestPair.length rp = List.length (RequestPair.encode rp).
Proof.
  intros Hid Hm Hp. unfold RequestPair.length, RequestPair.encode. cbv zeta.
  rewrite Nat.add_0_l, !length_app, <- (length_of_length_encode true _ Hp), <- Hm, <- u64_length_encode by exact Hid.
  lia.
Qed.

(** X5. Decoding what [RequestPair::encode] wrote gives the pair back and leaves the following bytes, under the hypotheses of X4 and the message's own round trip. *)
Lemma request_pair_decode_encode (rp : RequestPair.t T) (rest : bytes) :
  (RequestPair.request_id rp < 2 ^ 64)%N ->
  rlp_length (RequestPair.message rp) = List.length (rlp_encode (RequestPair.message rp)) ->
  (N.of_nat (Rlp.u64_length (RequestPair.request_id rp) + rlp_length (RequestPair.message rp)) < 2 ^ 64)%N ->
  rlp_decode (rlp_encode (RequestPair.message rp) ++ rest) = Ok (RequestPair.message rp, rest) ->
  RequestPair.decode (RequestPair.encode rp ++ rest) = Ok (rp, rest).
Proof.
  intros Hid Hm Hp Hrt. unfold RequestPair.decode, RequestPair.encode. cbv zeta.
  rewrite <- !app_assoc, header_list_roundtrip; [| exact Hp |].
  - unfold bind. rewrite u64_roundtrip by exact Hid. rewrite Hrt. destruct rp. reflexivity.
  - rewrite !length_app, <- Hm, <- u64_length_encode by exact Hid. lia.
Qed.

(** X6. [RequestPair::decode] does not check the list header's payload length against the fields: any list header whose length the buffer covers is accepted, and the request id and message are read after it. *)
Lemma request_pair_decode_ignores_header_length (p id : N) (msg : T) (rest : bytes) :
  (p < 2 ^ 64)%N -> (id < 2 ^ 64)%N ->
  (p <= N.of_nat (List.length (Rlp.u64_encode id ++ rlp_encode msg ++ rest)))%N ->
  rlp_decode (rlp_encode msg ++ rest) = Ok (msg, rest) ->
  RequestPair.decode (Rlp.header_encode (Rlp.mkHeader true p) ++ Rlp.u64_encode id ++ rlp_encode msg ++ rest)
    = Ok (RequestPair.mk id msg, rest).
Proof.
  intros Hp Hid Hlen Hrt. unfold RequestPair.decode.
  rewrite header_list_roundtrip by assumption.
  unfold bind. rewrite u64_roundtrip by exact Hid. rewrite Hrt. reflexivity.
Qed.

End RequestPairProps.

(** X1. Decoding the byte [EthMessageID::encode] writes gives the id back and leaves the following bytes; its [length] is the one byte written. *)
Lemma message_id_decode_encode (id : EthMessageID.t) (rest : bytes) :
  EthMessageID.decode (EthMessageID.encode id ++ rest) = Ok (id, rest) /\
  EthMessageID.length id = List.length (EthMessageID.encode id).
Proof. destruct id; split; reflexivity. Qed.

(** X2. [EthMessageID::decode] fails on an empty buffer with [InputTooShort]; otherwise it consumes exactly the first byte, returning the id with that discriminant, or fails with [Custom("Invalid message ID")] when no id has it. *)
Lemma message_id_decode_cases (buf : bytes) :
  (buf = [] /\ EthMessageID.decode buf = Err InputTooShort) \/
  (exists b rest, buf = b :: rest /\
     ((exists id, EthMessageID.to_u8 id = b /\ EthMessageID.decode buf = Ok (id, rest)) \/
      ((forall id, EthMessageID.to_u8 id <> b) /\
       EthMessageID.decode buf = Err (Custom "Invalid message ID"%string)))).
Proof.
  destruct buf as [| b rest]; [left; split; reflexivity | right].
  exists b, rest. split; [reflexivity |].
  destruct b;
    first [ right; split; [intros []; discriminate | reflexivity]
          | left; eexists; split; [| reflexivity]; reflexivity ].
Qed.

Lemma message_id_decode_byte (b : Byte.byte) (rest rest' : bytes) (id : EthMessageID.t) :
  EthMessageID.decode (b :: rest) = Ok (id, rest') <-> EthMessageID.to_u8 id = b /\ rest' = rest.
Proof.
  split.
  - intros H. destruct b; inversion H; split; reflexivity.
  - intros [<- ->]. destruct id; reflexivity.
Qed.

Lemma message_id_try_from_ok (n : nat) (id : EthMessageID.t) :
  EthMessageID.try_from n = Ok id <-> Byte.to_nat (EthMessageID.to_u8 id) = n.
Proof.
  split.
  - intros H. do 17 (destruct n as [| n]; [inversion H; reflexivity |]). discriminate H.
  - intros <-. destruct id; reflexivity.
Qed.

Lemma message_id_try_from_decode (b : Byte.byte) (rest : bytes) (id : EthMessageID.t) :
  EthMessageID.try_from (Byte.to_nat b) = Ok id <-> EthMessageID.decode (b :: rest) = Ok (id, rest).
Proof.
  rewrite message_id_try_from_ok, message_id_decode_byte.
  split.
  - intros H. split; [| reflexivity].
    apply (f_equal Byte.of_nat) in H. rewrite !Byte.of_to_nat in H. congruence.
  - intros [-> _]. reflexivity.
Qed.

(** *** The [eth/66] message enum *)

Section Eth66Props.
Context {NewBlockHashesT NewBlockT TransactionsT NewPooledTransactionHashesT GetBlockHeadersT BlockHeadersT GetBlockBodiesT BlockBodiesT GetPooledTransactionsT PooledTransactionsT GetNodeDataT NodeDataT GetReceiptsT ReceiptsT : Type}.
Context `{Encodable NewBlockHashesT} `{Decodable NewBlockHashesT}.
Context `{Encodable NewBlockT} `{Decodable NewBlockT}.
Context `{Encodable TransactionsT} `{Decodable TransactionsT}.
Context `{Encodable NewPooledTransactionHashesT} `{Decodable NewPooledTransactionHashesT}.
Context `{Encodable GetBlockHeadersT} `{Decodable GetBlockHeadersT}.
Context `{Encodable BlockHeadersT} `{Decodable BlockHeadersT}.
Context `{Encodable GetBlockBodiesT} `{Decodable GetBlockBodiesT}.
Context `{Encodable BlockBodiesT} `{Decodable BlockBodiesT}.
Context `{Encodable GetPooledTransactionsT} `{Decodable GetPooledTransactionsT}.
Context `{Encodable PooledTransactionsT} `{Decodable PooledTransactionsT}.
Context `{Encodable GetNodeDataT} `{Decodable GetNodeDataT}.
Context `{Encodable NodeDataT} `{Decodable NodeDataT}.
Context `{Encodable GetReceiptsT} `{Decodable GetReceiptsT}.
Context `{Encodable ReceiptsT} `{Decodable ReceiptsT}.

Local Abbreviation Msg := (Eth66Message.t NewBlockHashesT NewBlockT TransactionsT NewPooledTransactionHashesT GetBlockHeadersT BlockHeadersT GetBlockBodiesT BlockBodiesT GetPooledTransactionsT PooledTransactionsT GetNodeDataT NodeDataT GetReceiptsT ReceiptsT).

(** X13. A message [Eth66Message::decode] returns carries the requested id, and the [Status] id is refused with [Custom("invalid message id")]. *)
Lemma eth66_decode_message_id (id : EthMessageID.t) (buf rest : bytes) (m : Msg) :
  (Eth66Message.decode id buf = Ok (m, rest) -> Eth66Message.message_id m = id) /\
  @eq (Decoded Msg) (Eth66Message.decode EthMessageID.Status buf) (Err (Custom invalid_message_id)).
Proof.
  split; [| reflexivity].
  intros Hd. destruct id; cbn [Eth66Message.decode] in Hd; unfold bind in Hd; try discriminate Hd;
    match type of Hd with
    | context [match ?r with Ok _ => _ | Err _ => _ end] => destruct r as [[? ?] | ?]
    end; inversion Hd; reflexivity.
Qed.

(** X14. [Eth66Message::decode] under a message's id reads back what [Eth66Message::encode] wrote, when the payload round-trips. *)
Lemma eth66_decode_encode (m : Msg) (rest : bytes) :
  Eth66Message.payload_round_trips m rest ->
  Eth66Message.decode (Eth66Message.message_id m) (Eth66Message.encode m ++ rest) = Ok (m, rest).
Proof.
  destruct m; cbn [Eth66Message.payload_round_trips Eth66Message.decode Eth66Message.encode Eth66Message.message_id];
    intros Hrt; unfold bind; rewrite Hrt; reflexivity.
Qed.

End Eth66Props.

(** *** The [eth/67] and [eth/68] message enums *)

Section Eth67Props.
Context {NewBlockHashesT NewBlockT TransactionsT NewPooledTransactionHashesT GetBlockHeadersT BlockHeadersT GetBlockBodiesT BlockBodiesT GetPooledTransactionsT PooledTransactionsT GetReceiptsT ReceiptsT : Type}.
Context `{Encodable NewBlockHashesT} `{Decodable NewBlockHashesT}.
Context `{Encodable NewBlockT} `{Decodable NewBlockT}.
Context `{Encodable TransactionsT} `{Decodable TransactionsT}.
Context `{Encodable NewPooledTransactionHashesT} `{Decodable NewPooledTransactionHashesT}.
Context `{Encodable GetBlockHeadersT} `{Decodable GetBlockHeadersT}.
Context `{Encodable BlockHeadersT} `{Decodable BlockHeadersT}.
Context `{Encodable GetBlockBodiesT} `{Decodable GetBlockBodiesT}.
Context `{Encodable BlockBodiesT} `{Decodable BlockBodiesT}.
Context `{Encodable GetPooledTransactionsT} `{Decodable GetPooledTransactionsT}.
Context `{Encodable PooledTransactionsT} `{Decodable PooledTransactionsT}.
Context `{Encodable GetReceiptsT} `{Decodable GetReceiptsT}.
Context `{Encodable ReceiptsT} `{Decodable ReceiptsT}.

Local Abbreviation Msg67 := (Eth67Message.t NewBlockHashesT NewBlockT TransactionsT NewPooledTransactionHashesT GetBlockHeadersT BlockHeadersT GetBlockBodiesT BlockBodiesT GetPooledTransactionsT PooledTransactionsT GetReceiptsT ReceiptsT).
Local Abbreviation Msg68 := (Eth68Message.t NewBlockHashesT NewBlockT TransactionsT NewPooledTransactionHashesT GetBlockHeadersT BlockHeadersT GetBlockBodiesT BlockBodiesT GetPooledTransactionsT PooledTransactionsT GetReceiptsT ReceiptsT).

(** X15. A message [Eth67Message::decode] or [Eth68Message::decode] returns carries the requested id; [Status], [GetNodeData] and [NodeData] are refused with [Custom("invalid message id")]. *)
Lemma eth67_eth68_decode_message_id (id : EthMessageID.t) (buf rest : bytes) (m67 : Msg67) (m68 : Msg68) :
  (Eth67Message.decode id buf = Ok (m67, rest) -> Eth67Message.message_id m67 = id) /\
  (Eth68Message.decode id buf = Ok (m68, rest) -> Eth68Message.message_id m68 = id) /\
  ((id = EthMessageID.Status \/ id = EthMessageID.GetNodeData \/ id = EthMessageID.NodeData) ->
   @eq (Decoded Msg67) (Eth67Message.decode id buf) (Err (Custom invalid_message_id)) /\
   @eq (Decoded Msg68) (Eth68Message.decode id buf) (Err (Custom invalid_message_id))).
Proof.
  split; [| split].
  - intros Hd. destruct id; cbn [Eth67Message.decode] in Hd; unfold bind in Hd; try discriminate Hd;
      match type of Hd with
      | context [match ?r with Ok _ => _ | Err _ => _ end] => destruct r as [[? ?] | ?]
      end; inversion Hd; reflexivity.
  - intros Hd. destruct id; cbn [Eth68Message.decode] in Hd; unfold bind in Hd; try discriminate Hd;
      match type of Hd with
      | context [match ?r with Ok _ => _ | Err _ => _ end] => destruct r as [[? ?] | ?]
      end; inversion Hd; reflexivity.
  - intros [-> | [-> | ->]]; split; reflexivity.
Qed.

(** X16. [Eth67Message::decode] and [Eth68Message::decode] under a message's id read back what [encode] wrote, when the payload round-trips. *)
Lemma eth67_eth68_decode_encode (m67 : Msg67) (m68 : Msg68) (rest : bytes) :
  (Eth67Message.payload_round_trips m67 rest ->
   Eth67Message.decode (Eth67Message.message_id m67) (Eth67Message.encode m67 ++ rest) = Ok (m67, rest)) /\
  (Eth68Message.payload_round_trips m68 rest ->
   Eth68Message.decode (Eth68Message.message_id m68) (Eth68Message.encode m68 ++ rest) = Ok (m68, rest)).
Proof.
  split.
  - destruct m67; cbn [Eth67Message.payload_round_trips Eth67Message.decode Eth67Message.encode Eth67Message.message_id];
      intros Hrt; unfold bind; rewrite Hrt; reflexivity.
  - destruct m68; cbn [Eth68Message.payload_round_trips Eth68Message.decode Eth68Message.encode Eth68Message.message_id];
      intros Hrt; unfold bind; rewrite Hrt; reflexivity.
Qed.

End Eth67Props.

(** *** [EthStatusMessage] and [ProtocolMessage] *)

Lemma status_decode_id {StatusT} `{Encodable StatusT} `{Decodable StatusT}
    (id : EthMessageID.t) (buf rest : bytes) (m : EthStatusMessage.t StatusT) :
  EthStatusMessage.decode id buf = Ok (m, rest) -> EthStatusMessage.message_id m = id.
Proof.
  intros Hd. destruct id; cbn [EthStatusMessage.decode] in Hd; try discriminate Hd.
  unfold bind in Hd. destruct (rlp_decode buf) as [[? ?] | ?]; inversion Hd; reflexivity.
Qed.

(** X7. [EthStatusMessage::decode] only succeeds for the [Status] id. *)
Lemma status_decode_message_id {StatusT} `{Encodable StatusT} `{Decodable StatusT}
    (id : EthMessageID.t) (buf rest : bytes) (m : EthStatusMessage.t StatusT) :
  EthStatusMessage.decode id buf = Ok (m, rest) -> EthStatusMessage.message_id m = id.
Proof. apply status_decode_id. Qed.

(** X3. [EthMessageID::try_from] accepts exactly the discriminants of the ids, and on a byte it agrees with [EthMessageID::decode]. *)
Lemma message_id_try_from (n : nat) (b : Byte.byte) (rest : bytes) (id : EthMessageID.t) :
  (EthMessageID.try_from n = Ok id <-> Byte.to_nat (EthMessageID.to_u8 id) = n) /\
  (EthMessageID.try_from (Byte.to_nat b) = Ok id <-> EthMessageID.decode (b :: rest) = Ok (id, rest)).
Proof. split; [apply message_id_try_from_ok | apply message_id_try_from_decode]. Qed.

Section ProtocolMessageProps.
Context {M : Type} `{EthMessage M}.

Lemma protocol_decode_split (buf rest : bytes) (pm : ProtocolMessage.t M) :
  ProtocolMessage.decode buf = Ok (pm, rest) ->
  exists buf', buf = EthMessageID.encode (ProtocolMessage.message_type pm) ++ buf' /\
    message_decode (ProtocolMessage.message_type pm) buf' = Ok (ProtocolMessage.message pm, rest).
Proof.
  unfold ProtocolMessage.decode, bind. intros Hd.
  destruct buf as [| b buf]; [discriminate Hd |].
  destruct (EthMessageID.decode (b :: buf)) as [[id buf1] | e] eqn:Eid; [| discriminate Hd].
  apply message_id_decode_byte in Eid. destruct Eid as [<- ->].
  destruct (message_decode id buf) as [[msg buf2] | e] eqn:Em; [| discriminate Hd].
  inversion Hd; subst. exists buf. split; [reflexivity | exact Em].
Qed.

(** X9. When the message type's [decode] yields messages of the requested id, a decoded [ProtocolMessage] is the one [From] builds from its message. *)
Lemma protocol_message_decode_from (buf rest : bytes) (pm : ProtocolMessage.t M) :
  (forall id buf' m rest', message_decode id buf' = Ok (m, rest') -> message_id m = id) ->
  ProtocolMessage.decode buf = Ok (pm, rest) ->
  pm = ProtocolMessage.from (ProtocolMessage.message pm).
Proof.
  intros Hid Hd. destruct (protocol_decode_split buf rest pm Hd) as (buf' & _ & Hm).
  apply Hid in Hm. destruct pm as [ty msg]. unfold ProtocolMessage.from. cbn in *. rewrite Hm. reflexivity.
Qed.

(** X10. [ProtocolMessage::decode] reads back what [ProtocolMessage::encode] wrote for [ProtocolMessage::from(m)], when [m]'s own codec round-trips under its id. *)
Lemma protocol_message_decode_encode (m : M) (rest : bytes) :
  message_decode (message_id m) (rlp_encode m ++ rest) = Ok (m, rest) ->
  ProtocolMessage.decode (ProtocolMessage.encode (ProtocolMessage.from m) ++ rest) =
    Ok (ProtocolMessage.from m, rest).
Proof.
  intros Hrt. unfold ProtocolMessage.decode, ProtocolMessage.encode, ProtocolMessage.from, bind. cbn [ProtocolMessage.message_type ProtocolMessage.message].
  rewrite <- app_assoc. cbn [EthMessageID.encode app].
  rewrite (proj2 (message_id_decode_byte _ _ _ _) (conj eq_refl eq_refl)), Hrt. reflexivity.
Qed.

(** X11. [ProtocolMessage::length] is the size of what [ProtocolMessage::encode] writes, when the message's [length] is its encoded size. *)
Lemma protocol_message_length (pm : ProtocolMessage.t M) :
  rlp_length (ProtocolMessage.message pm) = List.length (rlp_encode (ProtocolMessage.message pm)) ->
  ProtocolMessage.length pm = List.length (ProtocolMessage.encode pm).
Proof.
  intros Hl. unfold ProtocolMessage.length, ProtocolMessage.encode.
  rewrite length_app, <- Hl. reflexivity.
Qed.

(** X8. A successful [ProtocolMessage::decode] has read the id byte of the decoded message type, and the message type's [decode] read the message from the rest. *)
Lemma protocol_message_decode_inv (buf rest : bytes) (pm : ProtocolMessage.t M) :
  ProtocolMessage.decode buf = Ok (pm, rest) ->
  exists buf', buf = EthMessageID.encode (ProtocolMessage.message_type pm) ++ buf' /\
    message_decode (ProtocolMessage.message_type pm) buf' = Ok (ProtocolMessage.message pm, rest).
Proof. apply protocol_decode_split. Qed.

End ProtocolMessageProps.

Section BroadcastProps.
Context {NewBlockT TransactionsT : Type} `{Encodable NewBlockT} `{Encodable TransactionsT}.


End BroadcastProps.

(** *** Witnesses *)

Local Abbreviation Eth66_u64 := (Eth66Message.t N N N N N N N N N N N N N N).
Local Abbreviation Eth67_u64 := (Eth67Message.t N N N N N N N N N N N N).
Local Abbreviation Eth68_u64 := (Eth68Message.t N N N N N N N N N N N N).

Lemma request_pair_length_is_encoded_size_witness :
  (RequestPair.request_id (RequestPair.mk 1337%N 5%N) < 2 ^ 64)%N /\
  rlp_length 5%N = List.length (rlp_encode 5%N) /\
  (N.of_nat (Rlp.u64_length 1337%N + rlp_length 5%N) < 2 ^ 64)%N /\
  RequestPair.length (RequestPair.mk 1337%N 5%N) = List.length (RequestPair.encode (RequestPair.mk 1337%N 5%N)).
Proof.
  split; [vm_compute; reflexivity | split; [vm_compute; reflexivity | split; [vm_compute; reflexivity |]]].
  apply (request_pair_length_is_encoded_size (RequestPair.mk 1337%N 5%N)); vm_compute; reflexivity.
Defined.

Lemma request_pair_decode_encode_witness :
  rlp_decode (rlp_encode 5%N ++ [x01]) = Ok (5%N, [x01]) /\
  RequestPair.decode (RequestPair.encode (RequestPair.mk 1337%N 5%N) ++ [x01]) = Ok (RequestPair.mk 1337%N 5%N, [x01]).
Proof.
  split; [vm_compute; reflexivity |].
  apply (request_pair_decode_encode (RequestPair.mk 1337%N 5%N) [x01]); vm_compute; reflexivity.
Defined.

Lemma request_pair_decode_ignores_header_length_witness :
  RequestPair.decode [xc0; x82; x05; x39; x05; x01] = Ok (RequestPair.mk 1337%N 5%N, [x01]).
Proof.
  change [xc0; x82; x05; x39; x05; x01] with
    (Rlp.header_encode (Rlp.mkHeader true 0) ++ Rlp.u64_encode 1337 ++ rlp_encode 5%N ++ [x01]).
  apply request_pair_decode_ignores_header_length; vm_compute; first [reflexivity | discriminate].
Defined.

Lemma eth66_decode_message_id_witness :
  Eth66Message.decode EthMessageID.GetBlockHeaders (RequestPair.encode (RequestPair.mk 1337%N 5%N))
    = Ok ((Eth66Message.GetBlockHeaders (RequestPair.mk 1337%N 5%N) : Eth66_u64), []) /\
  Eth66Message.message_id (Eth66Message.GetBlockHeaders (RequestPair.mk 1337%N 5%N) : Eth66_u64)
    = EthMessageID.GetBlockHeaders.
Proof.
  assert (Hd : Eth66Message.decode EthMessageID.GetBlockHeaders (RequestPair.encode (RequestPair.mk 1337%N 5%N))
    = Ok ((Eth66Message.GetBlockHeaders (RequestPair.mk 1337%N 5%N) : Eth66_u64), [])) by (vm_compute; reflexivity).
  split; [exact Hd |].
  exact (proj1 (eth66_decode_message_id EthMessageID.GetBlockHeaders _ [] _) Hd).
Defined.

Lemma eth66_decode_encode_witness :
  Eth66Message.payload_round_trips (Eth66Message.GetBlockHeaders (RequestPair.mk 1337%N 5%N) : Eth66_u64) [x01] /\
  Eth66Message.decode EthMessageID.GetBlockHeaders
    (Eth66Message.encode (Eth66Message.GetBlockHeaders (RequestPair.mk 1337%N 5%N) : Eth66_u64) ++ [x01])
    = Ok (Eth66Message.GetBlockHeaders (RequestPair.mk 1337%N 5%N), [x01]).
Proof.
  split; [vm_compute; reflexivity |].
  apply (eth66_decode_encode (Eth66Message.GetBlockHeaders (RequestPair.mk 1337%N 5%N) : Eth66_u64) [x01]).
  vm_compute; reflexivity.
Defined.

Lemma eth67_eth68_decode_message_id_witness :
  Eth67Message.decode EthMessageID.Receipts (RequestPair.encode (RequestPair.mk 7%N 300%N))
    = Ok ((Eth67Message.Receipts (RequestPair.mk 7%N 300%N) : Eth67_u64), []) /\
  Eth67Message.message_id (Eth67Message.Receipts (RequestPair.mk 7%N 300%N) : Eth67_u64) = EthMessageID.Receipts /\
  Eth68Message.decode EthMessageID.NewBlock [x05]
    = Ok ((Eth68Message.NewBlock 5%N : Eth68_u64), []) /\
  Eth68Message.message_id (Eth68Message.NewBlock 5%N : Eth68_u64) = EthMessageID.NewBlock /\
  @eq (Decoded Eth67_u64) (Eth67Message.decode EthMessageID.GetNodeData [x05]) (Err (Custom invalid_message_id)).
Proof.
  assert (H67 : Eth67Message.decode EthMessageID.Receipts (RequestPair.encode (RequestPair.mk 7%N 300%N))
    = Ok ((Eth67Message.Receipts (RequestPair.mk 7%N 300%N) : Eth67_u64), [])) by (vm_compute; reflexivity).
  assert (H68 : Eth68Message.decode EthMessageID.NewBlock [x05]
    = Ok ((Eth68Message.NewBlock 5%N : Eth68_u64), [])) by (vm_compute; reflexivity).
  split; [exact H67 | split; [| split; [exact H68 | split]]].
  - exact (proj1 (eth67_eth68_decode_message_id EthMessageID.Receipts _ [] _ (Eth68Message.NewBlock 5%N : Eth68_u64)) H67).
  - exact (proj1 (proj2 (eth67_eth68_decode_message_id EthMessageID.NewBlock [x05] [] (Eth67Message.NewBlock 5%N : Eth67_u64) _)) H68).
  - exact (proj1 (proj2 (proj2 (eth67_eth68_decode_message_id EthMessageID.GetNodeData [x05] []
      (Eth67Message.NewBlock 5%N : Eth67_u64) (Eth68Message.NewBlock 5%N : Eth68_u64)))
      (or_intror (or_introl eq_refl)))).
Defined.

Lemma eth67_eth68_decode_encode_witness :
  Eth67Message.payload_round_trips (Eth67Message.GetReceipts (RequestPair.mk 7%N 300%N) : Eth67_u64) [x01] /\
  Eth67Message.decode EthMessageID.GetReceipts
    (Eth67Message.encode (Eth67Message.GetReceipts (RequestPair.mk 7%N 300%N) : Eth67_u64) ++ [x01])
    = Ok (Eth67Message.GetReceipts (RequestPair.mk 7%N 300%N), [x01]) /\
  Eth68Message.payload_round_trips (Eth68Message.Transactions 200%N : Eth68_u64) [x01] /\
  Eth68Message.decode EthMessageID.Transactions
    (Eth68Message.encode (Eth68Message.Transactions 200%N : Eth68_u64) ++ [x01])
    = Ok (Eth68Message.Transactions 200%N, [x01]).
Proof.
  assert (H67 : Eth67Message.payload_round_trips (Eth67Message.GetReceipts (RequestPair.mk 7%N 300%N) : Eth67_u64) [x01])
    by (vm_compute; reflexivity).
  assert (H68 : Eth68Message.payload_round_trips (Eth68Message.Transactions 200%N : Eth68_u64) [x01])
    by (vm_compute; reflexivity).
  split; [exact H67 | split; [| split; [exact H68 |]]].
  - exact (proj1 (eth67_eth68_decode_encode _ (Eth68Message.Transactions 200%N : Eth68_u64) [x01]) H67).
  - exact (proj2 (eth67_eth68_decode_encode (Eth67Message.GetReceipts (RequestPair.mk 7%N 300%N) : Eth67_u64) _ [x01]) H68).
Defined.

Lemma status_decode_message_id_witness :
  EthStatusMessage.decode EthMessageID.Status [x05; x01] = Ok (EthStatusMessage.Status 5%N, [x01]) /\
  EthStatusMessage.message_id (EthStatusMessage.Status 5%N) = EthMessageID.Status.
Proof.
  assert (Hd : EthStatusMessage.decode EthMessageID.Status [x05; x01] = Ok (EthStatusMessage.Status 5%N, [x01]))
    by (vm_compute; reflexivity).
  split; [exact Hd | exact (status_decode_message_id _ _ _ _ Hd)].
Defined.

Lemma protocol_message_decode_inv_witness :
  ProtocolMessage.decode [x00; x05; x01] = Ok (ProtocolMessage.mk EthMessageID.Status (EthStatusMessage.Status 5%N), [x01]) /\
  exists buf', [x00; x05; x01] = EthMessageID.encode EthMessageID.Status ++ buf' /\
    message_decode EthMessageID.Status buf' = Ok (EthStatusMessage.Status 5%N, [x01]).
Proof.
  assert (Hd : ProtocolMessage.decode [x00; x05; x01] = Ok (ProtocolMessage.mk EthMessageID.Status (EthStatusMessage.Status 5%N), [x01]))
    by (vm_compute; reflexivity).
  split; [exact Hd | exact (protocol_message_decode_inv _ _ _ Hd)].
Defined.

Lemma protocol_message_decode_from_witness :
  ProtocolMessage.decode [x00; x05] = Ok (ProtocolMessage.mk EthMessageID.Status (EthStatusMessage.Status 5%N), []) /\
  ProtocolMessage.mk EthMessageID.Status (EthStatusMessage.Status 5%N) = ProtocolMessage.from (EthStatusMessage.Status 5%N).
Proof.
  assert (Hd : ProtocolMessage.decode [x00; x05] = Ok (ProtocolMessage.mk EthMessageID.Status (EthStatusMessage.Status 5%N), []))
    by (vm_compute; reflexivity).
  split; [exact Hd |].
  exact (protocol_message_decode_from _ _ _ (fun id buf' m rest' => status_decode_id id buf' rest' m) Hd).
Defined.

Lemma protocol_message_decode_encode_witness :
  message_decode (message_id (EthStatusMessage.Status 300%N)) (rlp_encode (EthStatusMessage.Status 300%N) ++ [x01])
    = Ok (EthStatusMessage.Status 300%N, [x01]) /\
  ProtocolMessage.decode (ProtocolMessage.encode (ProtocolMessage.from (EthStatusMessage.Status 300%N)) ++ [x01])
    = Ok (ProtocolMessage.from (EthStatusMessage.Status 300%N), [x01]).
Proof.
  assert (Hrt : message_decode (message_id (EthStatusMessage.Status 300%N)) (rlp_encode (EthStatusMessage.Status 300%N) ++ [x01])
    = Ok (EthStatusMessage.Status 300%N, [x01])) by (vm_compute; reflexivity).
  split; [exact Hrt | exact (protocol_message_decode_encode _ _ Hrt)].
Defined.

Lemma protocol_message_length_witness :
  rlp_length (EthStatusMessage.Status 300%N) = List.length (rlp_encode (EthStatusMessage.Status 300%N)) /\
  ProtocolMessage.length (ProtocolMessage.from (EthStatusMessage.Status 300%N))
    = List.length (ProtocolMessage.encode (ProtocolMessage.from (EthStatusMessage.Status 300%N))).
Proof.
  assert (Hl : rlp_length (EthStatusMessage.Status 300%N) = List.length (rlp_encode (EthStatusMessage.Status 300%N)))
    by (vm_compute; reflexivity).
  split; [exact Hl | exact (protocol_message_length (ProtocolMessage.from (EthStatusMessage.Status 300%N)) Hl)].
Defined.


(** The [request_pair_encode] test of [types/message.rs]: the pair
    [{ request_id: 1337, message: vec![5u8] }] encodes to [c5820539c105]. *)
Example request_pair_encode_test :
  RequestPair.encode (RequestPair.mk 1337%N [x05]) = [xc5; x82; x05; x39; xc1; x05] /\
  RequestPair.length (RequestPair.mk 1337%N [x05]) = 6.
Proof. split; reflexivity. Qed.
